(** * The application supervisor of [mcp_server.py]

    A shallow embedding of the control process: the module-level globals
    become one [State] record, every tool ([start_app], [stop_app], ...)
    becomes a computation in a state-and-exception monad over that record,
    the two browser listeners become computations run once per event, and
    the output relay [capture_output] becomes both a loop over the lines of
    the two pipes and a one-iteration-at-a-time machine. *)

From Stdlib Require Import List String Ascii ZArith Lia Bool Arith.
From Stdlib.Strings Require Import Byte.
From Stdlib Require Import DecimalString.
Import ListNotations.
Local Open Scope string_scope.
Local Open Scope nat_scope.
Local Open Scope list_scope.

(* ================================================================= *)
(** ** Text helpers *)

Module Text.

(** The one-character string holding a line feed. *)
Definition nl : string := String (ascii_of_nat 10) EmptyString.

(** [sep.join(parts)]. *)
Definition join (sep : string) (parts : list string) : string :=
  String.concat sep parts.

(** [l[-k:]] for a positive [k]: the last [k] items, all of them when
    the list is shorter. *)
Definition last_n {A : Type} (k : nat) (l : list A) : list A :=
  skipn (List.length l - k) l.

(** [str.upper()] on the ASCII letters. *)
Definition upper_ascii (c : ascii) : ascii :=
  let n := nat_of_ascii c in
  if andb (97 <=? n) (n <=? 122) then ascii_of_nat (n - 32) else c.

Fixpoint upper (s : string) : string :=
  match s with
  | EmptyString => EmptyString
  | String c r => String (upper_ascii c) (upper r)
  end.

(** The ASCII characters [str.rstrip()] removes: tab, line feed, vertical
    tab, form feed, carriage return, the four separators 28..31, space. *)
Definition is_space (c : ascii) : bool :=
  let n := nat_of_ascii c in
  orb (andb (9 <=? n) (n <=? 13)) (orb (andb (28 <=? n) (n <=? 31)) (n =? 32)).

(** [str.rstrip()]: drop the trailing run of white space. *)
Fixpoint rstrip (s : string) : string :=
  match s with
  | EmptyString => EmptyString
  | String c r =>
      match rstrip r with
      | EmptyString => if is_space c then EmptyString else String c EmptyString
      | r' => String c r'
      end
  end.

(** [str(n)] for an integer. *)
Definition of_Z (z : Z) : string := NilZero.string_of_int (Z.to_int z).

(** [sub in s]. *)
Definition Contains (sub s : string) : Prop :=
  exists pre post, s = (pre ++ sub ++ post)%string.

End Text.

(* ================================================================= *)
(** ** Data model *)

(** What a call returns: a value, or an exception carrying its [str()]. *)
Inductive Result (A : Type) : Type :=
| Ok (a : A)
| Raise (e : string).
Arguments Ok {A} a.
Arguments Raise {A} e.

(** [asyncio.subprocess.Process]: the child's pid, its [returncode]
    ([None] while it runs), and the lines its two pipes deliver before
    they close. *)
Record Process : Type := mkProcess {
  pid : Z;
  returncode : option Z;
  stdout : list (list byte);
  stderr : list (list byte)
}.

(** Handles of the automation driver. *)
Inductive Driver : Type := DriverId (n : nat).
Inductive Browser : Type := BrowserId (n : nat).
Record Page : Type := mkPage { page_id : nat; url : string }.

(** One entry of [console_logs]; the listeners build every entry with all
    five keys, so the dictionary is a record. *)
Record LogEntry : Type := mkLogEntry {
  level : string;
  message : string;
  timestamp : string;
  entry_url : string;
  args : list string
}.

(** Calls that reach outside the interpreter, in the order they happened;
    [Sleep] carries milliseconds. *)
Inductive Effect : Type :=
| Spawn (p : Z)
| CreateTask (p : Z)
| Sleep (ms : Z)
| DriverStart (d : Driver)
| Launch (b : Browser)
| NewPage (pg : nat)
| Listen (event : string) (pg : nat)
| Terminate (p : Z)
| Wait (p : Z)
| BrowserClose (b : Browser)
| DriverStop (d : Driver)
| Goto (pg : nat) (target : string)
| Click (pg : nat) (selector : string).

(** The module-level globals, and the record of outside calls. *)
Record State : Type := mkState {
  app_process : option Process;
  server_logs : list string;
  console_logs : list LogEntry;
  browser : option Browser;
  page : option Page;
  playwright : option Driver;
  effects : list Effect
}.

(** The module as loaded. *)
Definition initial : State :=
  {| app_process := None; server_logs := []; console_logs := [];
     browser := None; page := None; playwright := None; effects := [] |}.

(** What the outside world answers during one tool call.  The calls whose
    failure the program handles or tests for are answered with a [Result];
    [terminate], [wait], [close] and [stop] are called bare by the source
    and are taken to return. *)
Record Env : Type := mkEnv {
  child_pid : Z;
  child_stdout : list (list byte);
  child_stderr : list (list byte);
  driver_start : Result Driver;
  chromium_launch : Result Browser;
  new_page : Result Page;
  page_goto : string -> Result string;
  page_click : string -> Result unit
}.

(* ================================================================= *)
(** ** State and exceptions *)

Definition M (A : Type) : Type := State -> State * Result A.

Definition ret {A : Type} (a : A) : M A := fun s => (s, Ok a).

Definition raise {A : Type} (e : string) : M A := fun s => (s, Raise e).

Definition bind {A B : Type} (m : M A) (k : A -> M B) : M B :=
  fun s =>
    match m s with
    | (s', Ok a) => k a s'
    | (s', Raise e) => (s', Raise e)
    end.

(** [try: body except Exception as e: handler(str(e))]. *)
Definition try_except {A : Type} (body : M A) (handler : string -> M A) : M A :=
  fun s =>
    match body s with
    | (s', Ok a) => (s', Ok a)
    | (s', Raise e) => handler e s'
    end.

Definition get : M State := fun s => (s, Ok s).

Definition modify (f : State -> State) : M unit := fun s => (f s, Ok tt).

(** An outside call answered by the environment. *)
Definition lift {A : Type} (r : Result A) : M A := fun s => (s, r).

Declare Scope m_scope.
Delimit Scope m_scope with m.
Notation "x <- m ;; k" := (bind m (fun x => k))
  (at level 61, m at next level, right associativity) : m_scope.
Notation "m ;; k" := (bind m (fun _ => k))
  (at level 61, right associativity) : m_scope.
Local Open Scope m_scope.

(** Assignments to the globals. *)
Definition set_app_process (v : option Process) (s : State) : State :=
  {| app_process := v; server_logs := server_logs s;
     console_logs := console_logs s; browser := browser s; page := page s;
     playwright := playwright s; effects := effects s |}.

Definition set_server_logs (v : list string) (s : State) : State :=
  {| app_process := app_process s; server_logs := v;
     console_logs := console_logs s; browser := browser s; page := page s;
     playwright := playwright s; effects := effects s |}.

Definition set_console_logs (v : list LogEntry) (s : State) : State :=
  {| app_process := app_process s; server_logs := server_logs s;
     console_logs := v; browser := browser s; page := page s;
     playwright := playwright s; effects := effects s |}.

Definition set_browser (v : option Browser) (s : State) : State :=
  {| app_process := app_process s; server_logs := server_logs s;
     console_logs := console_logs s; browser := v; page := page s;
     playwright := playwright s; effects := effects s |}.

Definition set_page (v : option Page) (s : State) : State :=
  {| app_process := app_process s; server_logs := server_logs s;
     console_logs := console_logs s; browser := browser s; page := v;
     playwright := playwright s; effects := effects s |}.

Definition set_playwright (v : option Driver) (s : State) : State :=
  {| app_process := app_process s; server_logs := server_logs s;
     console_logs := console_logs s; browser := browser s; page := page s;
     playwright := v; effects := effects s |}.

(** Record an outside call. *)
Definition emit (e : Effect) : M unit :=
  modify (fun s =>
    {| app_process := app_process s; server_logs := server_logs s;
       console_logs := console_logs s; browser := browser s; page := page s;
       playwright := playwright s; effects := effects s ++ [e] |}).

(** [app_process and app_process.returncode is None]. *)
Definition running (s : State) : bool :=
  match app_process s with
  | Some p => match returncode p with None => true | Some _ => false end
  | None => false
  end.

(* ================================================================= *)
(** ** The browser session *)

(** A console message as the driver hands it to the listener. *)
Record ConsoleMessage : Type := mkMsg {
  msg_type : string;
  msg_text : string;
  msg_args : list string
}.

(** [page.url] read through the global; the attribute access fails on
    [None]. *)
Definition page_url : M string :=
  s <- get;;
  match page s with
  | Some pg => ret (url pg)
  | None => raise "'NoneType' object has no attribute 'url'"
  end.

(** The console listener; [now] is what [time.strftime] gives. *)
Definition handle_console_message (now : string) (msg : ConsoleMessage) : M unit :=
  u <- page_url;;
  let log_entry :=
    {| level := msg_type msg; message := msg_text msg; timestamp := now;
       entry_url := u; args := msg_args msg |} in
  modify (fun s => set_console_logs (console_logs s ++ [log_entry]) s);;
  s <- get;;
  if 100 <? List.length (console_logs s)
  then modify (fun s => set_console_logs (tl (console_logs s)) s)
  else ret tt.

(** The page-error listener; [error] is [str(error)]. *)
Definition handle_page_error (now : string) (error : string) : M unit :=
  u <- page_url;;
  let log_entry :=
    {| level := "error"; message := ("Page Error: " ++ error)%string; timestamp := now;
       entry_url := u; args := [] |} in
  modify (fun s => set_console_logs (console_logs s ++ [log_entry]) s).

Definition setup_browser_console_capture (env : Env) : M bool :=
  d <- lift (driver_start env);;
  modify (set_playwright (Some d));; emit (DriverStart d);;
  b <- lift (chromium_launch env);;
  modify (set_browser (Some b));; emit (Launch b);;
  pg <- lift (new_page env);;
  modify (set_page (Some pg));; emit (NewPage (page_id pg));;
  modify (set_console_logs []);;
  emit (Listen "console" (page_id pg));;
  emit (Listen "pageerror" (page_id pg));;
  ret true.

(* ================================================================= *)
(** ** The supervisor *)

Definition start_app (env : Env) : M string :=
  s <- get;;
  if running s then ret "App is already running."
  else
    let p := {| pid := child_pid env; returncode := None;
                stdout := child_stdout env; stderr := child_stderr env |} in
    emit (Spawn (pid p));;
    modify (set_app_process (Some p));;
    emit (CreateTask (pid p));;
    emit (Sleep 2000);;
    ok <- setup_browser_console_capture env;;
    if ok : bool
    then ret "App started successfully. Server is running on http://localhost:5001 with browser console capture enabled."
    else ret "App started successfully. Server is running on http://localhost:5001 (browser console capture failed to initialize).".

Definition stop_app : M string :=
  s <- get;;
  (match app_process s with
   | Some p =>
       match returncode p with
       | None =>
           emit (Terminate (pid p));;
           emit (Wait (pid p));;
           modify (set_app_process None)
       | Some _ => ret tt
       end
   | None => ret tt
   end);;
  s <- get;;
  (match browser s with
   | Some b => emit (BrowserClose b);; modify (set_browser None)
   | None => ret tt
   end);;
  s <- get;;
  (match playwright s with
   | Some d => emit (DriverStop d);; modify (set_playwright None)
   | None => ret tt
   end);;
  s <- get;;
  match app_process s with
  | None => ret "App stopped successfully."
  | Some _ => ret "App is not running."
  end.

Definition get_app_status : M string :=
  s <- get;;
  match app_process s with
  | Some p =>
      match returncode p with
      | None =>
          let browser_status :=
            match browser s, page s with
            | Some _, Some _ => "Browser console capture enabled"
            | _, _ => "Browser not initialized"
            end in
          ret ("App is running (PID: " ++ Text.of_Z (pid p) ++ "). " ++ browser_status)%string
      | Some _ => ret "App is not running"
      end
  | None => ret "App is not running"
  end.

(* ================================================================= *)
(** ** The query surface *)

(** One line of [get_console_logs]:
    [[timestamp] [LEVEL] message - url]. *)
Definition format_log (log : LogEntry) : string :=
  ("[" ++ timestamp log ++ "] [" ++ Text.upper (level log) ++ "] "
       ++ message log ++ " - " ++ entry_url log)%string.

Definition get_console_logs : M string :=
  s <- get;;
  if negb (running s)
  then ret "App is not running. Start the app first to capture console logs."
  else
    match console_logs s with
    | [] => ret "No browser console logs captured yet. Use navigate_to() to visit pages and generate logs."
    | _ :: _ =>
        let formatted_logs := map format_log (Text.last_n 20 (console_logs s)) in
        ret (Text.join Text.nl formatted_logs)
    end.

(** [page.goto] answers with the address the page ends at. *)
Definition navigate_to (env : Env) (path : string) : M string :=
  s <- get;;
  if negb (running s) then ret "App is not running. Start the app first."
  else
    match page s with
    | None => ret "Browser is not initialized. Restart the app."
    | Some pg =>
        try_except
          (let target := ("http://localhost:5001" ++ path)%string in
           landed <- lift (page_goto env target);;
           modify (set_page (Some {| page_id := page_id pg; url := landed |}));;
           emit (Goto (page_id pg) target);;
           emit (Sleep 1000);;
           ret ("Navigated to " ++ target)%string)
          (fun e => ret ("Failed to navigate: " ++ e)%string)
    end.

(** The [while not server_logs.empty()] loop: [logs] grows by the head of
    the queue until the queue is empty. *)
Fixpoint drain (queue logs : list string) : list string * list string :=
  match queue with
  | [] => (queue, logs)
  | line :: rest => drain rest (logs ++ [line])
  end.

Definition get_server_logs : M string :=
  s <- get;;
  let (queue, logs) := drain (server_logs s) [] in
  modify (set_server_logs queue);;
  match logs with
  | [] =>
      s <- get;;
      if running s then ret "No new server logs. Server is running."
      else ret "No server logs. Server is not running."
  | _ :: _ => ret (Text.join Text.nl (Text.last_n 50 logs))
  end.

Definition click_element (env : Env) (selector : string) : M string :=
  s <- get;;
  if negb (running s) then ret "App is not running. Start the app first."
  else
    match page s with
    | None => ret "Browser is not initialized. Restart the app."
    | Some pg =>
        try_except
          (lift (page_click env selector);;
           emit (Click (page_id pg) selector);;
           emit (Sleep 500);;
           ret ("Clicked element: " ++ selector)%string)
          (fun e =>
             ret ("Failed to click element '" ++ selector ++ "': " ++ e)%string)
    end.

(* ================================================================= *)
(** ** Browser events *)

(** What the page sends to the two listeners, with the clock reading at
    delivery. *)
Inductive BrowserEvent : Type :=
| Console (now : string) (msg : ConsoleMessage)
| PageError (now : string) (error : string).

Definition dispatch (ev : BrowserEvent) : M unit :=
  match ev with
  | Console now msg => handle_console_message now msg
  | PageError now error => handle_page_error now error
  end.

Fixpoint dispatch_all (evs : list BrowserEvent) : M unit :=
  match evs with
  | [] => ret tt
  | ev :: rest => dispatch ev;; dispatch_all rest
  end.

(** The entry a listener stores for an event seen at address [u]. *)
Definition entry_of (u : string) (ev : BrowserEvent) : LogEntry :=
  match ev with
  | Console now msg =>
      {| level := msg_type msg; message := msg_text msg; timestamp := now;
         entry_url := u; args := msg_args msg |}
  | PageError now error =>
      {| level := "error"; message := ("Page Error: " ++ error)%string;
         timestamp := now; entry_url := u; args := [] |}
  end.

(* ================================================================= *)
(** ** The output relay *)

Inductive Stream : Type := Stdout | Stderr.

(** What one resumption of the relay does: it puts a line of a pipe into
    the queue, skips an empty one, or finds the pipe closed. *)
Inductive RelayEvent : Type :=
| Put (src : Stream) (text : string)
| Skip (src : Stream)
| Eof (src : Stream).

(** Where the coroutine stands: in its first loop, in its second, returned,
    or ended by an exception. *)
Inductive Phase : Type :=
| ReadingStdout
| ReadingStderr
| Returned
| Died (e : string).

Record Relay : Type := mkRelay {
  phase : Phase;
  out_pending : list (list byte);
  err_pending : list (list byte)
}.

Section OutputRelay.

(** [bytes.decode('utf-8')], which raises on bytes that are not UTF-8. *)
Variable decode : list byte -> Result string.

(** The body of both loops; the value says which line, if any, went into
    the queue. *)
Definition relay_line (line : list byte) : M (option string) :=
  match line with
  | [] => ret None
  | _ :: _ =>
      text <- lift (decode line);;
      let text := Text.rstrip text in
      modify (fun s => set_server_logs (server_logs s ++ [text]) s);;
      ret (Some text)
  end.

(** [async for line in pipe: ...] over the lines the pipe delivers. *)
Fixpoint relay_lines (lines : list (list byte)) : M unit :=
  match lines with
  | [] => ret tt
  | line :: rest => relay_line line;; relay_lines rest
  end.

Definition capture_output (process : Process) : M unit :=
  relay_lines (stdout process);;
  relay_lines (stderr process).

(** The coroutine as [create_task] receives it. *)
Definition relay_of (process : Process) : Relay :=
  {| phase := ReadingStdout; out_pending := stdout process;
     err_pending := stderr process |}.

(** One iteration of the loop the relay stands in; other tasks run
    between two iterations. *)
Definition relay_iter (src : Stream) (line : list byte) (next : Relay)
           (r : Relay) (s : State) : Relay * State * option RelayEvent :=
  match relay_line line s with
  | (s', Ok (Some text)) => (next, s', Some (Put src text))
  | (s', Ok None) => (next, s', Some (Skip src))
  | (s', Raise e) =>
      ({| phase := Died e; out_pending := out_pending r;
          err_pending := err_pending r |}, s', None)
  end.

Definition relay_step (r : Relay) (s : State)
  : Relay * State * option RelayEvent :=
  match phase r with
  | ReadingStdout =>
      match out_pending r with
      | [] =>
          ({| phase := ReadingStderr; out_pending := [];
              err_pending := err_pending r |}, s, Some (Eof Stdout))
      | line :: rest =>
          relay_iter Stdout line
            {| phase := ReadingStdout; out_pending := rest;
               err_pending := err_pending r |} r s
      end
  | ReadingStderr =>
      match err_pending r with
      | [] =>
          ({| phase := Returned; out_pending := out_pending r;
              err_pending := [] |}, s, Some (Eof Stderr))
      | line :: rest =>
          relay_iter Stderr line
            {| phase := ReadingStderr; out_pending := out_pending r;
               err_pending := rest |} r s
      end
  | Returned | Died _ => (r, s, None)
  end.

(** A run of the relay among other tasks: before each of its iterations
    the scheduler lets the others change the globals. *)
Fixpoint relay_run (sched : list (State -> State)) (r : Relay) (s : State)
  : Relay * State * list RelayEvent :=
  match sched with
  | [] => (r, s, [])
  | others :: later =>
      match relay_step r (others s) with
      | (r', s', ev) =>
          match relay_run later r' s' with
          | (r'', s'', evs) =>
              (r'', s'', match ev with Some e => e :: evs | None => evs end)
          end
      end
  end.

End OutputRelay.

(** The lines of the events that put one, with their pipe. *)
Fixpoint puts (evs : list RelayEvent) : list (Stream * string) :=
  match evs with
  | [] => []
  | Put src text :: rest => (src, text) :: puts rest
  | _ :: rest => puts rest
  end.

(** The order the relay keeps: read left to right with [closed] telling
    whether standard output has reached its end, a line of standard output
    is put only before that end and a line of standard error only after. *)
Fixpoint well_ordered (closed : bool) (evs : list RelayEvent) : bool :=
  match evs with
  | [] => true
  | Put Stdout _ :: rest => negb closed && well_ordered closed rest
  | Put Stderr _ :: rest => closed && well_ordered closed rest
  | Eof Stdout :: rest => well_ordered true rest
  | _ :: rest => well_ordered closed rest
  end.

(** The texts a pipe's lines become when each of them decodes. *)
Definition texts (decode : list byte -> Result string)
           (lines : list (list byte)) : list string :=
  flat_map (fun line =>
              match line with
              | [] => []
              | _ :: _ =>
                  match decode line with
                  | Ok text => [Text.rstrip text]
                  | Raise _ => []
                  end
              end) lines.

Definition decodable (decode : list byte -> Result string)
           (lines : list (list byte)) : bool :=
  forallb (fun line => match decode line with Ok _ => true | Raise _ => false end)
          lines.

Definition stdout_open (r : Relay) : bool :=
  match phase r with ReadingStdout => true | _ => false end.

Definition halted (r : Relay) : bool :=
  match phase r with
  | Returned | Died _ => true
  | ReadingStdout | ReadingStderr => false
  end.

(** A schedule of [n] iterations during which nothing else runs. *)
Definition alone (n : nat) : list (State -> State) :=
  repeat (fun s : State => s) n.

(* ================================================================= *)
(** ** Reading the record of outside calls *)

(** The children spawned, the relay tasks created and the browsers
    launched, oldest first. *)
Definition spawns (l : list Effect) : list Z :=
  flat_map (fun e => match e with Spawn p => [p] | _ => [] end) l.

Definition relay_tasks (l : list Effect) : list Z :=
  flat_map (fun e => match e with CreateTask p => [p] | _ => [] end) l.

Definition launches (l : list Effect) : list Browser :=
  flat_map (fun e => match e with Launch b => [b] | _ => [] end) l.

(** The calls [stop_app] makes from a state: on the child when it is
    live, then on the browser and on the driver when they are held. *)
Definition kill_calls (s : State) : list Effect :=
  match app_process s with
  | Some p =>
      match returncode p with
      | None => [Terminate (pid p); Wait (pid p)]
      | Some _ => []
      end
  | None => []
  end.

Definition teardown_calls (s : State) : list Effect :=
  match browser s with Some b => [BrowserClose b] | None => [] end ++
  match playwright s with Some d => [DriverStop d] | None => [] end.

(** Lines the relay puts into the queue after a read. *)
Definition enqueue (more : list string) (s : State) : State :=
  set_server_logs (server_logs s ++ more) s.

(** The exception the session setup ends with, if any of its three driver
    calls raises. *)
Definition setup_error (env : Env) : option string :=
  match driver_start env with
  | Raise e => Some e
  | Ok _ =>
      match chromium_launch env with
      | Raise e => Some e
      | Ok _ =>
          match new_page env with
          | Raise e => Some e
          | Ok _ => None
          end
      end
  end.

Definition is_console (ev : BrowserEvent) : bool :=
  match ev with Console _ _ => true | PageError _ _ => false end.

Definition is_page_error (ev : BrowserEvent) : bool :=
  match ev with Console _ _ => false | PageError _ _ => true end.

(** [n] page errors, numbered from 1 in their text. *)
Definition page_errors (n : nat) : list BrowserEvent :=
  map (fun i => PageError "2024-01-01 00:00:00" (Text.of_Z (Z.of_nat i)))
      (seq 1 n).

(** The messages the tools return. *)
Definition msg_already_running : string := "App is already running.".
Definition msg_started : string :=
  "App started successfully. Server is running on http://localhost:5001 with browser console capture enabled.".
Definition msg_degraded : string :=
  "App started successfully. Server is running on http://localhost:5001 (browser console capture failed to initialize).".
Definition msg_stopped : string := "App stopped successfully.".
Definition msg_not_running : string := "App is not running.".

(** Sample inputs. *)
Module Sample.

Definition env_ok : Env :=
  {| child_pid := 4242; child_stdout := []; child_stderr := [];
     driver_start := Ok (DriverId 1);
     chromium_launch := Ok (BrowserId 1);
     new_page := Ok {| page_id := 1; url := "about:blank" |};
     page_goto := fun target => Ok target;
     page_click := fun _ => Ok tt |}.

(** The driver is not installed: starting it raises. *)
Definition env_no_driver : Env :=
  {| child_pid := 4242; child_stdout := []; child_stderr := [];
     driver_start := Raise "Executable doesn't exist";
     chromium_launch := Ok (BrowserId 1);
     new_page := Ok {| page_id := 1; url := "about:blank" |};
     page_goto := fun target => Ok target;
     page_click := fun _ => Ok tt |}.

(** No element matches: every click times out. *)
Definition env_no_element : Env :=
  {| child_pid := 4243; child_stdout := []; child_stderr := [];
     driver_start := Ok (DriverId 2);
     chromium_launch := Ok (BrowserId 2);
     new_page := Ok {| page_id := 2; url := "about:blank" |};
     page_goto := fun target => Ok target;
     page_click := fun _ => Raise "Timeout 30000ms exceeded." |}.

(** The state after a first successful [start_app]. *)
Definition started : State := fst (start_app env_ok initial).

(** The same with the child gone on its own, exit code 1. *)
Definition crashed : State :=
  set_app_process
    (Some {| pid := 4242; returncode := Some 1%Z; stdout := []; stderr := [] |})
    started.

(** A decoder for the 7-bit lines of the samples: any other byte is
    refused as the UTF-8 decoder refuses a stray one. *)
Definition decode_ascii (line : list byte) : Result string :=
  if forallb (fun b => Nat.ltb (Byte.to_nat b) 128) line
  then Ok (string_of_list_byte line)
  else Raise "'utf-8' codec can't decode byte".

(** A child that writes one line to each pipe. *)
Definition chatty : Process :=
  {| pid := 4242; returncode := None;
     stdout := [list_byte_of_string ("listening" ++ Text.nl)];
     stderr := [list_byte_of_string ("warning: debug" ++ Text.nl)] |}.

(** [n] console messages of level "log", numbered from 1 in their text. *)
Definition console_messages (n : nat) : list BrowserEvent :=
  map (fun i => Console "2024-01-01 00:00:00"
                  {| msg_type := "log"; msg_text := Text.of_Z (Z.of_nat i);
                     msg_args := [] |})
      (seq 1 n).

(** The route is broken: the load never settles. *)
Definition env_broken_route : Env :=
  {| child_pid := 4244; child_stdout := []; child_stderr := [];
     driver_start := Ok (DriverId 3);
     chromium_launch := Ok (BrowserId 3);
     new_page := Ok {| page_id := 3; url := "about:blank" |};
     page_goto := fun _ => Raise "Timeout 30000ms exceeded.";
     page_click := fun _ => Ok tt |}.

(** A child whose second line of standard output is not UTF-8. *)
Definition garbled : Process :=
  {| pid := 4245; returncode := None;
     stdout := [list_byte_of_string ("ready" ++ Text.nl);
                [xff; x0a];
                list_byte_of_string ("lost" ++ Text.nl)];
     stderr := [list_byte_of_string ("also lost" ++ Text.nl)] |}.

End Sample.

(* ================================================================= *)
(** ** The supervisor among its callers *)

(** The child exits on its own: [returncode] of the process object the
    handle refers to becomes the exit code.  Nothing else is told. *)
Definition child_exits (code : Z) (s : State) : State :=
  match app_process s with
  | Some p =>
      match returncode p with
      | None =>
          set_app_process
            (Some {| pid := pid p; returncode := Some code;
                     stdout := stdout p; stderr := stderr p |}) s
      | Some _ => s
      end
  | None => s
  end.

(** What can happen to the globals: a tool is called, the page delivers an
    event to a listener, the child exits, a relay task puts a line. *)
Inductive Action : Type :=
| DoStart (env : Env)
| DoStop
| DoStatus
| DoConsoleLogs
| DoServerLogs
| DoNavigate (env : Env) (path : string)
| DoClick (env : Env) (selector : string)
| PageSends (ev : BrowserEvent)
| ChildExits (code : Z)
| RelayPuts (text : string).

Definition step (a : Action) (s : State) : State :=
  match a with
  | DoStart env => fst (start_app env s)
  | DoStop => fst (stop_app s)
  | DoStatus => fst (get_app_status s)
  | DoConsoleLogs => fst (get_console_logs s)
  | DoServerLogs => fst (get_server_logs s)
  | DoNavigate env path => fst (navigate_to env path s)
  | DoClick env selector => fst (click_element env selector s)
  | PageSends ev => fst (dispatch ev s)
  | ChildExits code => child_exits code s
  | RelayPuts text => enqueue [text] s
  end.

(** A history, oldest action first. *)
Definition execute (acts : list Action) (s : State) : State :=
  fold_left (fun s a => step a s) acts s.

(** What every reachable state satisfies. *)
Definition Consistent (s : State) : Prop :=
  relay_tasks (effects s) = spawns (effects s) /\
  (forall p, app_process s = Some p ->
             exists before, spawns (effects s) = before ++ [pid p]) /\
  (forall b, browser s = Some b -> In (Launch b) (effects s)) /\
  (forall d, playwright s = Some d -> In (DriverStart d) (effects s)) /\
  (forall pg, page s = Some pg -> In (NewPage (page_id pg)) (effects s)) /\
  (browser s <> None -> playwright s <> None) /\
  (console_logs s <> [] -> page s <> None).


(** The status line of a running app. *)
Definition status_line (p : Process) (capture : bool) : string :=
  ("App is running (PID: " ++ Text.of_Z (pid p) ++ "). "
     ++ if capture then "Browser console capture enabled"
        else "Browser not initialized")%string.

(* ================================================================= *)
(** * Properties *)

(** Unfold the monad down to pairs of a state and a result. *)
Ltac run :=
  unfold bind, ret, raise, lift, get, modify, emit, try_except; cbn.

(** Split a state into its globals, the child into live or exited. *)
Ltac by_state s :=
  destruct s as [[[i [code|] o e]|] q c [b|] [pg|] [d|] fx].

(* ----------------------------------------------------------------- *)
(** ** The supervisor *)

Lemma running_spec (s : State) :
  running s = true <->
  exists p, app_process s = Some p /\ returncode p = None.
Proof.
  unfold running. split.
  - destruct (app_process s) as [p|]; [|discriminate].
    destruct (returncode p) eqn:E; [discriminate|]. eauto.
  - intros (p & -> & ->). reflexivity.
Qed.

Lemma start_app_when_running (env : Env) (s : State) :
  running s = true -> start_app env s = (s, Ok msg_already_running).
Proof.
  intros H. unfold start_app, bind, get. rewrite H. reflexivity.
Qed.

Lemma start_app_makes_running (env : Env) (s : State) :
  running (fst (start_app env s)) = true.
Proof.
  destruct (running s) eqn:R.
  - rewrite start_app_when_running; assumption.
  - unfold start_app, setup_browser_console_capture, bind, get. rewrite R.
    run. destruct (driver_start env); cbn; [|reflexivity].
    destruct (chromium_launch env); cbn; [|reflexivity].
    destruct (new_page env); reflexivity.
Qed.

Lemma spawns_app (l1 l2 : list Effect) : spawns (l1 ++ l2) = spawns l1 ++ spawns l2.
Proof. apply flat_map_app. Qed.

Lemma relay_tasks_app (l1 l2 : list Effect) :
  relay_tasks (l1 ++ l2) = relay_tasks l1 ++ relay_tasks l2.
Proof. apply flat_map_app. Qed.

Lemma launches_app (l1 l2 : list Effect) :
  launches (l1 ++ l2) = launches l1 ++ launches l2.
Proof. apply flat_map_app. Qed.

(** What a [start_app] that finds nothing running adds to the record of
    outside calls. *)
Lemma start_app_effects (env : Env) (s : State) :
  running s = false ->
  exists tail,
    effects (fst (start_app env s)) =
      effects s ++ [Spawn (child_pid env); CreateTask (child_pid env)] ++ tail /\
    spawns tail = [] /\ relay_tasks tail = [] /\
    launches tail =
      match driver_start env, chromium_launch env with
      | Ok _, Ok b => [b]
      | _, _ => []
      end.
Proof.
  intros R.
  unfold start_app, setup_browser_console_capture, bind, get. rewrite R. run.
  destruct (driver_start env) as [d|]; cbn.
  - destruct (chromium_launch env) as [b|]; cbn.
    + destruct (new_page env) as [pg|]; cbn; eexists;
        (split; [rewrite <- !app_assoc; cbn; reflexivity|]); cbn; auto.
    + eexists. split; [rewrite <- !app_assoc; cbn; reflexivity|]. cbn; auto.
  - eexists. split; [rewrite <- !app_assoc; cbn; reflexivity|]. cbn; auto.
Qed.

(** C1.  While a process handle exists whose exit code is unset,
    [start_app] answers "App is already running." and changes nothing: the
    globals and the record of outside calls are the ones it found, so no
    process is spawned, no relay task created and no browser launched.
    Hence a second [start_app] right after a first one is such a no-op, and
    the two calls together spawn one child, create one relay task and launch
    at most one browser (exactly one when the driver starts and launches). *)
Theorem start_app_idempotent_while_live :
  (forall (env : Env) (s : State) (p : Process),
      app_process s = Some p -> returncode p = None ->
      start_app env s = (s, Ok msg_already_running)) /\
  (forall (env1 env2 : Env) (s : State),
      let s1 := fst (start_app env1 s) in
      let s2 := fst (start_app env2 s1) in
      start_app env2 s1 = (s1, Ok msg_already_running) /\
      (running s = false ->
       spawns (effects s2) = spawns (effects s) ++ [child_pid env1] /\
       relay_tasks (effects s2) = relay_tasks (effects s) ++ [child_pid env1] /\
       launches (effects s2) =
         launches (effects s) ++
         match driver_start env1, chromium_launch env1 with
         | Ok _, Ok b => [b]
         | _, _ => []
         end)).
Proof.
  split.
  - intros env s p Hp Hlive. apply start_app_when_running.
    apply running_spec. eauto.
  - intros env1 env2 s s1 s2.
    assert (E : start_app env2 s1 = (s1, Ok msg_already_running))
      by (apply start_app_when_running, start_app_makes_running).
    split; [exact E|]. intros R.
    subst s2. rewrite E. cbn [fst]. subst s1.
    destruct (start_app_effects env1 s R) as (tail & -> & Hs & Hr & Hl).
    rewrite !spawns_app, !relay_tasks_app, !launches_app, Hs, Hr, Hl.
    cbn. rewrite ?app_nil_r. auto.
Qed.

Lemma start_app_idempotent_witness :
  start_app Sample.env_no_element Sample.started
    = (Sample.started, Ok msg_already_running) /\
  spawns (effects (fst (start_app Sample.env_no_element
                          (fst (start_app Sample.env_ok initial))))) = [4242%Z] /\
  launches (effects (fst (start_app Sample.env_no_element
                            (fst (start_app Sample.env_ok initial)))))
    = [BrowserId 1].
Proof.
  split.
  - apply (proj1 start_app_idempotent_while_live Sample.env_no_element
             Sample.started
             {| pid := 4242; returncode := None; stdout := []; stderr := [] |});
      reflexivity.
  - pose proof (proj2 start_app_idempotent_while_live Sample.env_ok
                  Sample.env_no_element initial) as H.
    cbv zeta in H. destruct H as [_ H].
    destruct (H eq_refl) as (Hs & _ & Hl). split; [exact Hs | exact Hl].
Defined.

(** [stop_app] always returns a message. *)
Lemma stop_app_returns (s : State) :
  snd (stop_app s) = Ok msg_stopped \/ snd (stop_app s) = Ok msg_not_running.
Proof. by_state s; cbn; auto. Qed.

(** The calls [stop_app] makes, in order. *)
Lemma stop_app_effects (s : State) :
  effects (fst (stop_app s)) = effects s ++ kill_calls s ++ teardown_calls s.
Proof.
  by_state s; cbn; rewrite <- ?app_assoc; cbn; rewrite ?app_nil_r; reflexivity.
Qed.

(** C2.  [stop_app] tests the process handle after it has cleared it.  A
    live child is terminated, then awaited, its handle is cleared, and the
    answer is "App stopped successfully."; the answer is that message
    exactly when the handle is absent at the end, so also when there was
    nothing to stop; "App is not running." is answered only for a handle
    whose exit code is already set, the one case the handle survives.
    ([terminate], [wait], [close] and [stop] are taken to return.) *)
Theorem stop_app_checks_after_clearing (s : State) :
  let s' := fst (stop_app s) in
  let answer := snd (stop_app s) in
  (forall p, app_process s = Some p -> returncode p = None ->
     effects s' =
       effects s ++ [Terminate (pid p); Wait (pid p)] ++ teardown_calls s /\
     app_process s' = None /\ answer = Ok msg_stopped) /\
  (app_process s' = None <-> answer = Ok msg_stopped) /\
  (app_process s = None -> answer = Ok msg_stopped) /\
  (answer = Ok msg_not_running <->
   exists p code, app_process s = Some p /\ returncode p = Some code) /\
  (answer = Ok msg_stopped \/ answer = Ok msg_not_running).
Proof.
  intros s' answer.
  assert (Hfx := stop_app_effects s). fold s' in Hfx.
  assert (Hret := stop_app_returns s). fold answer in Hret.
  split; [|split; [|split; [|split]]].
  - intros p Hp Hlive. split; [|split].
    + rewrite Hfx. unfold kill_calls. rewrite Hp, Hlive. reflexivity.
    + subst s'. by_state s; cbn in *; try reflexivity;
        try discriminate; injection Hp as <-; discriminate.
    + subst answer. by_state s; cbn in *; try reflexivity;
        try discriminate; injection Hp as <-; discriminate.
  - subst s' answer. by_state s; cbn; split; intros;
      try reflexivity; discriminate.
  - subst answer. by_state s; cbn; intros; try reflexivity; discriminate.
  - subst answer. split.
    + by_state s; cbn; intros; try discriminate;
        eexists; eexists; split; reflexivity.
    + intros (p & rc & Hp & Hrc).
      by_state s; cbn in *; try reflexivity; try discriminate;
        injection Hp as <-; cbn in Hrc; discriminate.
  - exact Hret.
Qed.

Lemma stop_app_checks_witness :
  app_process (fst (stop_app Sample.started)) = None /\
  snd (stop_app Sample.started) = Ok msg_stopped /\
  snd (stop_app initial) = Ok msg_stopped /\
  snd (stop_app Sample.crashed) = Ok msg_not_running.
Proof.
  pose proof (stop_app_checks_after_clearing Sample.started) as (Hlive & _).
  pose proof (stop_app_checks_after_clearing initial) as (_ & _ & Hnone & _).
  pose proof (stop_app_checks_after_clearing Sample.crashed)
    as (_ & _ & _ & Hgone & _).
  destruct (Hlive {| pid := 4242; returncode := None; stdout := []; stderr := [] |}
              eq_refl eq_refl) as (_ & Hcleared & Hok).
  split; [|split; [|split]].
  - exact Hcleared.
  - exact Hok.
  - exact (Hnone eq_refl).
  - apply Hgone. eexists. exists 1%Z. split; reflexivity.
Defined.

(** C6.  From every state [stop_app] returns a message, and afterwards
    [get_app_status] answers "App is not running", the browser handle and
    the driver handle are cleared, and the browser and the driver that were
    held have been closed and stopped, whether or not a child was live.
    When nothing runs and nothing is held, [stop_app] makes no outside call
    and leaves the state as it was.  ([terminate], [wait], [close] and
    [stop] are taken to return.) *)
Theorem stop_app_then_status_not_running (s : State) :
  let s' := fst (stop_app s) in
  (exists msg, snd (stop_app s) = Ok msg) /\
  get_app_status s' = (s', Ok "App is not running") /\
  browser s' = None /\
  playwright s' = None /\
  effects s' = effects s ++ kill_calls s ++ teardown_calls s /\
  (forall b, browser s = Some b -> In (BrowserClose b) (effects s')) /\
  (forall d, playwright s = Some d -> In (DriverStop d) (effects s')) /\
  (running s = false -> browser s = None -> playwright s = None ->
   stop_app s =
     (s, Ok match app_process s with
            | Some _ => msg_not_running
            | None => msg_stopped
            end)).
Proof.
  intros s'.
  assert (Hfx := stop_app_effects s). fold s' in Hfx.
  split; [destruct (stop_app_returns s) as [H|H]; rewrite H; eauto|].
  split; [subst s'; by_state s; reflexivity|].
  split; [subst s'; by_state s; reflexivity|].
  split; [subst s'; by_state s; reflexivity|].
  split; [exact Hfx|].
  split; [|split].
  - intros b0 Hb. rewrite Hfx. unfold teardown_calls. rewrite Hb.
    rewrite !in_app_iff. right. right. left. left. reflexivity.
  - intros d0 Hd. rewrite Hfx. unfold teardown_calls. rewrite Hd.
    rewrite !in_app_iff. right. right. right. left. reflexivity.
  - by_state s; cbn; intros; try discriminate;
      rewrite ?app_nil_r; reflexivity.
Qed.

Lemma stop_app_then_status_witness :
  get_app_status (fst (stop_app Sample.started))
    = (fst (stop_app Sample.started), Ok "App is not running") /\
  get_app_status (fst (stop_app Sample.crashed))
    = (fst (stop_app Sample.crashed), Ok "App is not running") /\
  In (BrowserClose (BrowserId 1)) (effects (fst (stop_app Sample.crashed))) /\
  stop_app initial = (initial, Ok msg_stopped).
Proof.
  pose proof (stop_app_then_status_not_running Sample.started)
    as (_ & Hstatus & _).
  pose proof (stop_app_then_status_not_running Sample.crashed)
    as (_ & Hstatus' & _ & _ & _ & Hclosed & _).
  pose proof (stop_app_then_status_not_running initial)
    as (_ & _ & _ & _ & _ & _ & _ & Hidle).
  split; [exact Hstatus|]. split; [exact Hstatus'|].
  split; [exact (Hclosed (BrowserId 1) eq_refl)|].
  exact (Hidle eq_refl eq_refl eq_refl).
Defined.

(* ----------------------------------------------------------------- *)
(** ** Server logs *)

Lemma drain_all (queue logs : list string) :
  drain queue logs = ([], logs ++ queue).
Proof.
  revert logs. induction queue as [|line rest IH]; intros logs; cbn.
  - rewrite app_nil_r. reflexivity.
  - rewrite IH, <- app_assoc. reflexivity.
Qed.

(** The state and the answer of [get_server_logs] in closed form. *)
Lemma get_server_logs_eq (s : State) :
  get_server_logs s =
    (set_server_logs [] s,
     Ok match server_logs s with
        | [] => if running s then "No new server logs. Server is running."
                else "No server logs. Server is not running."
        | _ :: _ => Text.join Text.nl (Text.last_n 50 (server_logs s))
        end).
Proof.
  unfold get_server_logs, bind, get. rewrite drain_all. cbn [app].
  destruct (server_logs s) as [|l q] eqn:E; run.
  - change (running (set_server_logs [] s)) with (running s).
    destruct (running s); reflexivity.
  - reflexivity.
Qed.

Lemma last_n_length {A : Type} (k : nat) (l : list A) :
  List.length (Text.last_n k l) = Nat.min k (List.length l).
Proof. unfold Text.last_n. rewrite length_skipn. lia. Qed.

Lemma last_n_suffix {A : Type} (k : nat) (l : list A) :
  l = firstn (List.length l - k) l ++ Text.last_n k l.
Proof. unfold Text.last_n. symmetry. apply firstn_skipn. Qed.

(** C5.  [get_server_logs] empties the queue and touches nothing else; when
    it drained anything it returns the last 50 of the drained lines, oldest
    first and joined by line feeds, which are at most 50 lines and a suffix
    of what was queued.  A second call right after finds nothing, and a call
    after more lines were queued returns the last 50 of those new lines
    only: nothing drained before comes back. *)
Theorem get_server_logs_destructive_bounded (s : State) :
  let q := server_logs s in
  let s' := fst (get_server_logs s) in
  s' = set_server_logs [] s /\
  (q <> [] ->
   snd (get_server_logs s) = Ok (Text.join Text.nl (Text.last_n 50 q))) /\
  List.length (Text.last_n 50 q) <= 50 /\
  (exists older, q = older ++ Text.last_n 50 q) /\
  (snd (get_server_logs s') = Ok "No new server logs. Server is running." \/
   snd (get_server_logs s') = Ok "No server logs. Server is not running.") /\
  (forall more, more <> [] ->
   get_server_logs (enqueue more s') =
     (s', Ok (Text.join Text.nl (Text.last_n 50 more)))).
Proof.
  intros q s'. subst s'. rewrite !get_server_logs_eq. cbn [fst snd].
  split; [reflexivity|]. split; [|split; [|split; [|split]]].
  - intros Hq. subst q. destruct (server_logs s); [contradiction|reflexivity].
  - rewrite last_n_length. lia.
  - eexists. apply last_n_suffix.
  - cbn. change (running (set_server_logs [] s)) with (running s).
    destruct (running s); auto.
  - intros more Hmore. rewrite get_server_logs_eq.
    unfold enqueue. cbn. destruct more; [contradiction|reflexivity].
Qed.

Lemma get_server_logs_witness :
  snd (get_server_logs (enqueue ["a"; "b"] initial)) = Ok ("a" ++ Text.nl ++ "b")%string /\
  get_server_logs
    (enqueue ["c"] (fst (get_server_logs (enqueue ["a"; "b"] initial))))
    = (fst (get_server_logs (enqueue ["a"; "b"] initial)), Ok "c").
Proof.
  pose proof (get_server_logs_destructive_bounded (enqueue ["a"; "b"] initial))
    as (_ & Hfirst & _ & _ & _ & Hnext).
  split.
  - apply Hfirst. discriminate.
  - apply (Hnext ["c"]). discriminate.
Defined.

(* ----------------------------------------------------------------- *)
(** ** What the tools leave alone *)

Lemma stop_app_logs (s : State) :
  server_logs (fst (stop_app s)) = server_logs s /\
  console_logs (fst (stop_app s)) = console_logs s.
Proof. by_state s; split; reflexivity. Qed.

Lemma start_app_server_logs (env : Env) (s : State) :
  server_logs (fst (start_app env s)) = server_logs s.
Proof.
  unfold start_app, setup_browser_console_capture, bind, get.
  destruct (running s); [reflexivity|]. run.
  destruct (driver_start env); cbn; [|reflexivity].
  destruct (chromium_launch env); cbn; [|reflexivity].
  destruct (new_page env); reflexivity.
Qed.

Lemma start_app_console_logs (env : Env) (s : State) :
  console_logs (fst (start_app env s)) =
    if running s then console_logs s
    else match driver_start env, chromium_launch env, new_page env with
         | Ok _, Ok _, Ok _ => []
         | _, _, _ => console_logs s
         end.
Proof.
  unfold start_app, setup_browser_console_capture, bind, get.
  destruct (running s); [reflexivity|]. run.
  destruct (driver_start env); cbn; [|reflexivity].
  destruct (chromium_launch env); cbn; [|reflexivity].
  destruct (new_page env); reflexivity.
Qed.

Lemma queries_keep_console_logs (env : Env) (arg : string) (s : State) :
  console_logs (fst (get_console_logs s)) = console_logs s /\
  console_logs (fst (get_server_logs s)) = console_logs s /\
  console_logs (fst (get_app_status s)) = console_logs s /\
  console_logs (fst (navigate_to env arg s)) = console_logs s /\
  console_logs (fst (click_element env arg s)) = console_logs s.
Proof.
  split; [|split; [|split; [|split]]].
  - unfold get_console_logs, bind, get.
    destruct (running s); cbn; [|reflexivity].
    destruct (console_logs s) eqn:E; cbn; rewrite E; reflexivity.
  - rewrite get_server_logs_eq. reflexivity.
  - unfold get_app_status, bind, get.
    destruct (app_process s) as [[i [rc|] o e]|]; reflexivity.
  - unfold navigate_to, bind, get, try_except.
    destruct (running s); cbn; [|reflexivity].
    destruct (page s); [|reflexivity]. run.
    destruct (page_goto env _); reflexivity.
  - unfold click_element, bind, get, try_except.
    destruct (running s); cbn; [|reflexivity].
    destruct (page s); [|reflexivity]. run.
    destruct (page_click env _); reflexivity.
Qed.

(* ----------------------------------------------------------------- *)
(** ** The console buffer *)

Lemma handle_console_message_eq (now : string) (msg : ConsoleMessage)
      (s : State) (pg : Page) :
  page s = Some pg ->
  handle_console_message now msg s =
    (set_console_logs
       (let l := console_logs s ++ [entry_of (url pg) (Console now msg)] in
        if 100 <? List.length l then tl l else l) s, Ok tt).
Proof.
  intros Hp. destruct s as [ap q c b pg' d fx]. cbn in Hp. subst pg'.
  unfold handle_console_message, page_url, bind, get, ret, modify, entry_of.
  cbn [page url console_logs set_console_logs app_process server_logs
       browser playwright effects].
  destruct (100 <? _) eqn:E; reflexivity.
Qed.

Lemma handle_page_error_eq (now error : string) (s : State) (pg : Page) :
  page s = Some pg ->
  handle_page_error now error s =
    (set_console_logs
       (console_logs s ++ [entry_of (url pg) (PageError now error)]) s, Ok tt).
Proof.
  intros Hp. destruct s as [ap q c b pg' d fx]. cbn in Hp. subst pg'.
  reflexivity.
Qed.

Lemma dispatch_without_page (ev : BrowserEvent) (s : State) :
  page s = None ->
  dispatch ev s = (s, Raise "'NoneType' object has no attribute 'url'").
Proof.
  intros Hp. destruct s as [ap q c b pg' d fx]. cbn in Hp. subst pg'.
  destruct ev; reflexivity.
Qed.

(** A listener leaves the buffer as it was (no page to read the address
    from) or leaves an entry in it. *)
Lemma dispatch_never_clears (ev : BrowserEvent) (s : State) :
  console_logs (fst (dispatch ev s)) = console_logs s \/
  console_logs (fst (dispatch ev s)) <> [].
Proof.
  destruct (page s) as [pg|] eqn:Hp.
  - right. destruct ev as [now msg|now error]; cbn [dispatch].
    + rewrite (handle_console_message_eq now msg s pg Hp).
      cbn [fst console_logs set_console_logs]. cbv zeta.
      destruct (100 <? _) eqn:E.
      * apply Nat.ltb_lt in E. rewrite length_app in E.
        destruct (console_logs s) as [|x [|y l]]; cbn [List.length] in E;
          try lia; cbn [app tl]; discriminate.
      * destruct (console_logs s); discriminate.
    + rewrite (handle_page_error_eq now error s pg Hp). cbn.
      destruct (console_logs s); discriminate.
  - left. rewrite dispatch_without_page by assumption. reflexivity.
Qed.

Lemma set_console_logs_twice (l1 l2 : list LogEntry) (s : State) :
  set_console_logs l2 (set_console_logs l1 s) = set_console_logs l2 s.
Proof. reflexivity. Qed.

Lemma set_console_logs_same (s : State) : set_console_logs (console_logs s) s = s.
Proof. destruct s; reflexivity. Qed.

(** Page errors pile up: each is appended and none is ever dropped. *)
Lemma page_errors_pile_up (evs : list BrowserEvent) (s : State) (pg : Page) :
  page s = Some pg ->
  forallb is_page_error evs = true ->
  dispatch_all evs s =
    (set_console_logs (console_logs s ++ map (entry_of (url pg)) evs) s, Ok tt).
Proof.
  revert s. induction evs as [|ev rest IH]; intros s Hp Hall; cbn.
  - rewrite app_nil_r, set_console_logs_same. reflexivity.
  - cbn in Hall. apply andb_prop in Hall as [Hev Hrest].
    destruct ev as [now msg|now error]; [discriminate|].
    unfold bind. cbn [dispatch].
    rewrite (handle_page_error_eq now error s pg Hp).
    rewrite IH by (assumption || exact Hp).
    cbn [console_logs set_console_logs]. rewrite <- app_assoc. reflexivity.
Qed.

Lemma page_errors_all (n : nat) : forallb is_page_error (page_errors n) = true.
Proof.
  unfold page_errors. apply forallb_forall. intros ev Hin.
  apply in_map_iff in Hin as (i & <- & _). reflexivity.
Qed.

Lemma page_errors_length (n : nat) : List.length (page_errors n) = n.
Proof. unfold page_errors. rewrite length_map, length_seq. reflexivity. Qed.

(** C3 (the code departs from it).  The page-error listener appends and
    never evicts: once a session is set up and its buffer cleared, [n] page
    errors leave all [n] entries in [console_logs], the first emitted still
    at the head.  With [n] above 100 the buffer therefore holds more than
    100 entries and its oldest entry is the first emitted, not the
    (n-99)th. *)
Theorem page_errors_overflow_console_buffer (n : nat) (s : State) (pg : Page) :
  page s = Some pg ->
  console_logs s = [] ->
  let s' := fst (dispatch_all (page_errors n) s) in
  snd (dispatch_all (page_errors n) s) = Ok tt /\
  console_logs s' = map (entry_of (url pg)) (page_errors n) /\
  List.length (console_logs s') = n /\
  hd_error (console_logs s') =
    hd_error (map (entry_of (url pg)) (page_errors n)).
Proof.
  intros Hp Hc s'. subst s'.
  rewrite (page_errors_pile_up (page_errors n) s pg Hp (page_errors_all n)).
  cbn [fst snd console_logs set_console_logs]. rewrite Hc. cbn [app].
  rewrite length_map, page_errors_length. auto.
Qed.

Lemma page_errors_overflow_witness :
  List.length
    (console_logs (fst (dispatch_all (page_errors 101) Sample.started))) = 101 /\
  hd_error (console_logs (fst (dispatch_all (page_errors 101) Sample.started)))
    = Some {| level := "error"; message := "Page Error: 1";
              timestamp := "2024-01-01 00:00:00"; entry_url := "about:blank";
              args := [] |}.
Proof.
  pose proof (page_errors_overflow_console_buffer 101 Sample.started
                {| page_id := 1; url := "about:blank" |} eq_refl eq_refl)
    as (_ & _ & Hlen & Hhd).
  split; [exact Hlen|]. rewrite Hhd. reflexivity.
Defined.

(** The console listener alone keeps the ring: appending to at most 100
    entries and popping the head above 100 leaves the last 100. *)
Lemma ring_step (l : list LogEntry) (e : LogEntry) :
  List.length l <= 100 ->
  (if 100 <? List.length (l ++ [e]) then tl (l ++ [e]) else l ++ [e])
    = Text.last_n 100 (l ++ [e]).
Proof.
  intros Hl. unfold Text.last_n. rewrite length_app. cbn [List.length].
  destruct (100 <? List.length l + 1) eqn:E.
  - apply Nat.ltb_lt in E. replace (List.length l + 1 - 100) with 1 by lia.
    destruct l; reflexivity.
  - apply Nat.ltb_ge in E. replace (List.length l + 1 - 100) with 0 by lia.
    reflexivity.
Qed.

Lemma last_n_snoc {A : Type} (k : nat) (l : list A) (x : A) :
  0 < k ->
  Text.last_n k (Text.last_n k l ++ [x]) = Text.last_n k (l ++ [x]).
Proof.
  intros Hk. unfold Text.last_n.
  rewrite !length_app, length_skipn. cbn [List.length].
  destruct (Nat.le_gt_cases (List.length l) k) as [Hle|Hgt].
  - replace (List.length l - k) with 0 by lia. cbn [skipn].
    replace (List.length l - 0) with (List.length l) by lia. reflexivity.
  - replace (List.length l - (List.length l - k) + 1 - k) with 1 by lia.
    rewrite (skipn_app (List.length l + 1 - k)).
    replace (List.length l + 1 - k - List.length l) with 0 by lia.
    cbn [skipn].
    replace (List.length l + 1 - k) with (1 + (List.length l - k)) by lia.
    rewrite <- skipn_skipn.
    destruct (skipn (List.length l - k) l) eqn:E.
    + apply (f_equal (@List.length A)) in E. rewrite length_skipn in E.
      cbn in E. lia.
    + reflexivity.
Qed.

Lemma last_n_absorb {A : Type} (k : nat) (l more : list A) :
  0 < k ->
  Text.last_n k (Text.last_n k l ++ more) = Text.last_n k (l ++ more).
Proof.
  intros Hk. induction more as [|y ys IH] using rev_ind.
  - rewrite !app_nil_r. unfold Text.last_n at 1. rewrite last_n_length.
    replace (Nat.min k (List.length l) - k) with 0 by lia. reflexivity.
  - rewrite !app_assoc. rewrite <- (last_n_snoc k (l ++ ys)) by lia.
    rewrite <- IH. rewrite last_n_snoc by lia. reflexivity.
Qed.

Lemma last_n_bound {A : Type} (k : nat) (l : list A) :
  List.length (Text.last_n k l) <= k.
Proof. rewrite last_n_length. lia. Qed.

(** X1.  While only console messages arrive, from a buffer of at most 100
    entries, the buffer is the last 100 of everything recorded: the ring
    bound holds and the oldest entry kept is the (N-99)th. *)
Theorem console_messages_keep_ring (evs : list BrowserEvent) (s : State) (pg : Page) :
  page s = Some pg ->
  List.length (console_logs s) <= 100 ->
  forallb is_console evs = true ->
  dispatch_all evs s =
    (set_console_logs
       (Text.last_n 100 (console_logs s ++ map (entry_of (url pg)) evs)) s,
     Ok tt).
Proof.
  revert s. induction evs as [|ev rest IH]; intros s Hp Hlen Hall.
  - cbn. rewrite app_nil_r. unfold Text.last_n.
    replace (List.length (console_logs s) - 100) with 0 by lia.
    cbn [skipn]. rewrite set_console_logs_same. reflexivity.
  - cbn in Hall. apply andb_prop in Hall as [Hev Hrest].
    destruct ev as [now msg|now error]; [|discriminate].
    cbn [dispatch_all dispatch]. unfold bind.
    rewrite (handle_console_message_eq now msg s pg Hp). cbv zeta.
    rewrite ring_step by assumption.
    rewrite IH; [|exact Hp|cbn [console_logs set_console_logs]; apply last_n_bound|assumption].
    cbn [console_logs set_console_logs map].
    rewrite set_console_logs_twice.
    change (entry_of (url pg) (Console now msg) :: map (entry_of (url pg)) rest)
      with ([entry_of (url pg) (Console now msg)] ++ map (entry_of (url pg)) rest).
    rewrite (app_assoc (console_logs s)), last_n_absorb by lia. reflexivity.
Qed.

Lemma console_messages_keep_ring_witness :
  List.length
    (console_logs (fst (dispatch_all (Sample.console_messages 101) Sample.started)))
    = 100 /\
  option_map message
    (hd_error
       (console_logs (fst (dispatch_all (Sample.console_messages 101) Sample.started))))
    = Some "2".
Proof.
  rewrite (console_messages_keep_ring (Sample.console_messages 101) Sample.started
             {| page_id := 1; url := "about:blank" |} eq_refl
             ltac:(cbn; lia) eq_refl).
  split; reflexivity.
Defined.

Lemma last_n_skipn {A : Type} (n k : nat) (l : list A) :
  0 < n ->
  Nat.min n (List.length l) <= List.length l - k ->
  Text.last_n n (skipn k l) = Text.last_n n l.
Proof.
  intros Hn H. unfold Text.last_n. rewrite length_skipn, skipn_skipn.
  destruct (Nat.le_gt_cases n (List.length l)) as [Hle|Hgt].
  - f_equal. lia.
  - destruct l as [|x l]; [rewrite !skipn_nil; reflexivity|].
    cbn [List.length] in *. assert (k = 0) by lia. subst k. f_equal. lia.
Qed.

(** Under any mix of events the buffer is a suffix of everything recorded,
    at least 100 entries long once 100 were recorded. *)
Lemma buffer_is_recent_suffix (evs : list BrowserEvent) :
  forall (s : State) (pg : Page),
    page s = Some pg ->
    snd (dispatch_all evs s) = Ok tt /\
    exists k,
      console_logs (fst (dispatch_all evs s))
        = skipn k (console_logs s ++ map (entry_of (url pg)) evs) /\
      Nat.min 100 (List.length (console_logs s ++ map (entry_of (url pg)) evs))
        <= List.length (console_logs s ++ map (entry_of (url pg)) evs) - k.
Proof.
  induction evs as [|ev rest IH]; intros s pg Hp.
  - split; [reflexivity|]. exists 0. cbn [dispatch_all map skipn fst].
    unfold ret. cbn [fst]. split; [rewrite app_nil_r; reflexivity|lia].
  - cbn [dispatch_all map]. unfold bind.
    set (e := entry_of (url pg) ev).
    assert (Hstep : exists l',
               dispatch ev s = (set_console_logs l' s, Ok tt) /\
               (l' = console_logs s ++ [e] \/
                l' = tl (console_logs s ++ [e]) /\ 100 <= List.length l')).
    { destruct ev as [now msg|now error]; cbn [dispatch].
      - rewrite (handle_console_message_eq now msg s pg Hp). cbv zeta.
        eexists. split; [reflexivity|]. fold e.
        destruct (100 <? _) eqn:E; [right|left; reflexivity].
        split; [reflexivity|]. apply Nat.ltb_lt in E.
        destruct (console_logs s ++ [e]); cbn in *; lia.
      - rewrite (handle_page_error_eq now error s pg Hp).
        eexists. split; [reflexivity|]. left. reflexivity. }
    destruct Hstep as (l' & -> & Hl').
    destruct (IH (set_console_logs l' s) pg Hp) as (Hok & k & Hk & Hbound).
    cbn [console_logs set_console_logs] in Hk, Hbound.
    split; [exact Hok|].
    change (e :: map (entry_of (url pg)) rest)
      with ([e] ++ map (entry_of (url pg)) rest).
    rewrite app_assoc.
    destruct Hl' as [->|[-> Hlen]].
    + exists k. split; assumption.
    + exists (S k). revert Hk Hbound Hlen.
      destruct (console_logs s ++ [e]) as [|x l] eqn:El;
        [destruct (console_logs s); discriminate|].
      cbn [tl app skipn List.length]. intros Hk Hbound Hlen.
      split; [exact Hk|]. rewrite length_app in *. lia.
Qed.

(** X2.  What [get_console_logs] prints is the last 20 events recorded
    since the buffer was last cleared, whatever the mix of console messages
    and page errors: the entries the page-error listener fails to evict are
    never among them. *)
Theorem console_tail_is_most_recent (evs : list BrowserEvent) (s : State) (pg : Page) :
  page s = Some pg ->
  Text.last_n 20 (console_logs (fst (dispatch_all evs s)))
    = Text.last_n 20 (console_logs s ++ map (entry_of (url pg)) evs).
Proof.
  intros Hp. destruct (buffer_is_recent_suffix evs s pg Hp) as (_ & k & -> & Hb).
  apply last_n_skipn; lia.
Qed.

Lemma console_tail_witness :
  map message
    (Text.last_n 20
       (console_logs (fst (dispatch_all (page_errors 101) Sample.started))))
    = map message
        (map (entry_of "about:blank") (Text.last_n 20 (page_errors 101))).
Proof.
  rewrite (console_tail_is_most_recent (page_errors 101) Sample.started
             {| page_id := 1; url := "about:blank" |} eq_refl).
  reflexivity.
Defined.

(* ----------------------------------------------------------------- *)
(** ** Failures of the driver *)

(** [start_app] ends in one of three ways: the no-op, the full success, or
    the exception of the session setup.  The second message of its last
    [if] is never returned: the setup returns [True] or raises. *)
Lemma start_app_answers (env : Env) (s : State) :
  snd (start_app env s) =
    if running s then Ok msg_already_running
    else match setup_error env with
         | Some e => Raise e
         | None => Ok msg_started
         end.
Proof.
  unfold start_app, setup_browser_console_capture, setup_error, bind, get.
  destruct (running s); [reflexivity|]. run.
  destruct (driver_start env); cbn; [|reflexivity].
  destruct (chromium_launch env); cbn; [|reflexivity].
  destruct (new_page env); reflexivity.
Qed.

(** C4 (the code departs from it).  When nothing runs and one of the three
    driver calls of the session setup raises, [start_app] ends with that
    exception: nothing catches it, and the message telling that browser
    capture failed to initialize is not returned.  The child spawned just
    before stays live and recorded in [app_process]. *)
Theorem setup_failure_escapes_start_app (env : Env) (s : State) (e : string) :
  running s = false ->
  setup_error env = Some e ->
  snd (start_app env s) = Raise e /\
  snd (start_app env s) <> Ok msg_degraded /\
  running (fst (start_app env s)) = true /\
  spawns (effects (fst (start_app env s))) = spawns (effects s) ++ [child_pid env].
Proof.
  intros R He.
  assert (A : snd (start_app env s) = Raise e)
    by (rewrite start_app_answers, R, He; reflexivity).
  split; [exact A|]. split; [rewrite A; discriminate|].
  split; [apply start_app_makes_running|].
  destruct (start_app_effects env s R) as (tail & -> & Hs & _).
  rewrite !spawns_app, Hs. reflexivity.
Qed.

Lemma setup_failure_witness :
  snd (start_app Sample.env_no_driver initial) = Raise "Executable doesn't exist" /\
  running (fst (start_app Sample.env_no_driver initial)) = true.
Proof.
  pose proof (setup_failure_escapes_start_app Sample.env_no_driver initial
                "Executable doesn't exist" eq_refl eq_refl) as (H & _ & Hr & _).
  split; [exact H | exact Hr].
Defined.

(** [click_element] always returns a message. *)
Lemma click_element_returns (env : Env) (selector : string) (s : State) :
  exists msg, snd (click_element env selector s) = Ok msg.
Proof.
  unfold click_element, bind, get, try_except.
  destruct (running s); cbn; [|eauto].
  destruct (page s); [|cbn; eauto]. run.
  destruct (page_click env selector); cbn; eauto.
Qed.

(** C8.  When the app runs, a page is held and the click raises,
    [click_element] returns, as a value and with the state untouched, the
    text "Failed to click element '<selector>': <error>", which contains
    the selector and "Failed to click"; and whatever the state and the
    driver's answer, [click_element] returns a message and never raises. *)
Theorem click_element_failure_is_text
        (env : Env) (selector e : string) (s : State) (pg : Page) :
  running s = true ->
  page s = Some pg ->
  page_click env selector = Raise e ->
  let msg := ("Failed to click element '" ++ selector ++ "': " ++ e)%string in
  click_element env selector s = (s, Ok msg) /\
  Text.Contains selector msg /\
  Text.Contains "Failed to click" msg /\
  (forall env' selector' s0,
      exists msg', snd (click_element env' selector' s0) = Ok msg').
Proof.
  intros R Hp Hc msg. split; [|split; [|split]].
  - unfold click_element, bind, get, try_except. rewrite R, Hp. run.
    rewrite Hc. reflexivity.
  - exists "Failed to click element '"%string, ("': " ++ e)%string. reflexivity.
  - exists ""%string, (" element '" ++ selector ++ "': " ++ e)%string.
    reflexivity.
  - intros. apply click_element_returns.
Qed.

Lemma click_element_failure_witness :
  click_element Sample.env_no_element "#does-not-exist" Sample.started =
    (Sample.started,
     Ok "Failed to click element '#does-not-exist': Timeout 30000ms exceeded.").
Proof.
  apply (click_element_failure_is_text Sample.env_no_element "#does-not-exist"
           "Timeout 30000ms exceeded." Sample.started
           {| page_id := 1; url := "about:blank" |} eq_refl eq_refl eq_refl).
Defined.

(** X3.  A navigation that raises is answered with
    "Failed to navigate: <error>" and leaves the state, so the app is still
    reported running. *)
Theorem navigate_to_failure_is_text
      (env : Env) (path e : string) (s : State) (pg : Page) :
  running s = true ->
  page s = Some pg ->
  page_goto env ("http://localhost:5001" ++ path)%string = Raise e ->
  navigate_to env path s = (s, Ok ("Failed to navigate: " ++ e)%string) /\
  Text.Contains "Failed to navigate" ("Failed to navigate: " ++ e)%string /\
  exists p,
    app_process s = Some p /\
    get_app_status s =
      (s, Ok ("App is running (PID: " ++ Text.of_Z (pid p) ++ "). "
                ++ match browser s with
                   | Some _ => "Browser console capture enabled"
                   | None => "Browser not initialized"
                   end)%string).
Proof.
  intros R Hp Hg. split; [|split].
  - unfold navigate_to, bind, get, try_except. rewrite R, Hp. run.
    cbn in Hg. rewrite Hg. reflexivity.
  - exists ""%string, (": " ++ e)%string. reflexivity.
  - apply running_spec in R as (p & Ha & Hr). exists p. split; [exact Ha|].
    unfold get_app_status, bind, get. rewrite Ha, Hr, Hp.
    destruct (browser s); reflexivity.
Qed.

Lemma navigate_to_failure_witness :
  navigate_to Sample.env_broken_route "/missing" Sample.started =
    (Sample.started, Ok "Failed to navigate: Timeout 30000ms exceeded.").
Proof.
  apply (navigate_to_failure_is_text Sample.env_broken_route "/missing"
           "Timeout 30000ms exceeded." Sample.started
           {| page_id := 1; url := "about:blank" |} eq_refl eq_refl eq_refl).
Defined.

(* ----------------------------------------------------------------- *)
(** ** Console logs as the client reads them *)

Lemma running_false_spec (s : State) :
  running s = false <->
  app_process s = None \/
  exists p code, app_process s = Some p /\ returncode p = Some code.
Proof.
  unfold running. destruct (app_process s) as [p|].
  - destruct (returncode p) as [code|] eqn:E; split; intros H; try reflexivity.
    + right. eauto.
    + discriminate.
    + destruct H as [H|(p' & code & Hp & Hc)]; [discriminate|].
      injection Hp as <-. congruence.
  - split; auto.
Qed.

(** C7.  [get_console_logs] answers by three cases and changes nothing: no
    live process (no handle, or a handle whose exit code is set) gives the
    "App is not running" message, whatever the buffer holds; a live process
    and an empty buffer give the "No browser console logs captured yet"
    message; otherwise the answer is the last 20 entries of the buffer, in
    buffer order (newest last), each as [[timestamp] [LEVEL] message - url],
    joined by line feeds. *)
Theorem get_console_logs_cases (s : State) :
  (running s = false <->
   app_process s = None \/
   exists p code, app_process s = Some p /\ returncode p = Some code) /\
  (running s = false ->
   get_console_logs s =
     (s, Ok "App is not running. Start the app first to capture console logs.")) /\
  (running s = true -> console_logs s = [] ->
   get_console_logs s =
     (s, Ok "No browser console logs captured yet. Use navigate_to() to visit pages and generate logs.")) /\
  (running s = true -> console_logs s <> [] ->
   get_console_logs s =
     (s, Ok (Text.join Text.nl
               (map format_log (Text.last_n 20 (console_logs s)))))) /\
  List.length (Text.last_n 20 (console_logs s))
    = Nat.min 20 (List.length (console_logs s)) /\
  (exists older, console_logs s = older ++ Text.last_n 20 (console_logs s)) /\
  (forall log,
      format_log log =
        ("[" ++ timestamp log ++ "] [" ++ Text.upper (level log) ++ "] "
             ++ message log ++ " - " ++ entry_url log)%string).
Proof.
  split; [apply running_false_spec|].
  split; [|split; [|split; [|split; [|split]]]].
  - intros R. unfold get_console_logs, bind, get. rewrite R. reflexivity.
  - intros R E. unfold get_console_logs, bind, get. rewrite R, E. reflexivity.
  - intros R E. unfold get_console_logs, bind, get. rewrite R. cbn [negb].
    destruct (console_logs s); [contradiction|reflexivity].
  - apply last_n_length.
  - eexists. apply last_n_suffix.
  - reflexivity.
Qed.

Lemma get_console_logs_witness :
  get_console_logs initial =
    (initial, Ok "App is not running. Start the app first to capture console logs.") /\
  get_console_logs Sample.started =
    (Sample.started,
     Ok "No browser console logs captured yet. Use navigate_to() to visit pages and generate logs.") /\
  snd (get_console_logs
         (set_console_logs
            [{| level := "warning"; message := "slow"; timestamp := "2024-01-01 00:00:00";
                entry_url := "http://localhost:5001/"; args := [] |};
             {| level := "error"; message := "boom"; timestamp := "2024-01-01 00:00:01";
                entry_url := "http://localhost:5001/"; args := [] |}]
            Sample.started)) =
    Ok ("[2024-01-01 00:00:00] [WARNING] slow - http://localhost:5001/" ++ Text.nl ++
        "[2024-01-01 00:00:01] [ERROR] boom - http://localhost:5001/")%string.
Proof.
  split; [|split].
  - apply (get_console_logs_cases initial). reflexivity.
  - apply (get_console_logs_cases Sample.started); reflexivity.
  - pose proof (get_console_logs_cases
                  (set_console_logs
                     [{| level := "warning"; message := "slow";
                         timestamp := "2024-01-01 00:00:00";
                         entry_url := "http://localhost:5001/"; args := [] |};
                      {| level := "error"; message := "boom";
                         timestamp := "2024-01-01 00:00:01";
                         entry_url := "http://localhost:5001/"; args := [] |}]
                     Sample.started)) as (_ & _ & _ & H & _).
    rewrite H; [reflexivity|reflexivity|discriminate].
Defined.

(** C10.  [stop_app] leaves the server-log queue and the console buffer as
    they were.  A following [start_app] leaves the queue alone too, so the
    lines queued before the stop are still there after a stop and a start
    and the next [get_server_logs] returns the last 50 of them.  The console
    buffer is emptied by one thing only, the session setup inside a
    [start_app] that found nothing running and whose three driver calls
    succeeded: every other [start_app], [stop_app] and every query leave the
    buffer unchanged, and a listener leaves it unchanged or non-empty. *)
Theorem stop_app_keeps_both_logs :
  (forall s,
      server_logs (fst (stop_app s)) = server_logs s /\
      console_logs (fst (stop_app s)) = console_logs s) /\
  (forall env s,
      let s2 := fst (start_app env (fst (stop_app s))) in
      server_logs s2 = server_logs s /\
      (server_logs s <> [] ->
       snd (get_server_logs s2) =
         Ok (Text.join Text.nl (Text.last_n 50 (server_logs s))))) /\
  (forall env s,
      console_logs (fst (start_app env s)) =
        if running s then console_logs s
        else match setup_error env with
             | None => []
             | Some _ => console_logs s
             end) /\
  (forall env arg s,
      console_logs (fst (get_console_logs s)) = console_logs s /\
      console_logs (fst (get_server_logs s)) = console_logs s /\
      console_logs (fst (get_app_status s)) = console_logs s /\
      console_logs (fst (navigate_to env arg s)) = console_logs s /\
      console_logs (fst (click_element env arg s)) = console_logs s) /\
  (forall ev s,
      console_logs (fst (dispatch ev s)) = console_logs s \/
      console_logs (fst (dispatch ev s)) <> []).
Proof.
  split; [exact stop_app_logs|].
  split; [|split; [|split]].
  - intros env s s2.
    assert (E : server_logs s2 = server_logs s).
    { subst s2. rewrite start_app_server_logs. apply stop_app_logs. }
    split; [exact E|]. intros Hq.
    rewrite get_server_logs_eq. cbn [snd]. rewrite E.
    destruct (server_logs s); [contradiction|reflexivity].
  - intros env s. rewrite start_app_console_logs. unfold setup_error.
    destruct (running s); [reflexivity|].
    destruct (driver_start env); [|reflexivity].
    destruct (chromium_launch env); [|reflexivity].
    destruct (new_page env); reflexivity.
  - exact queries_keep_console_logs.
  - exact dispatch_never_clears.
Qed.

Lemma stop_app_keeps_logs_witness :
  snd (get_server_logs
         (fst (start_app Sample.env_no_element
                 (fst (stop_app (enqueue ["serving on 5001"] Sample.started))))))
    = Ok "serving on 5001".
Proof.
  pose proof (proj1 (proj2 stop_app_keeps_both_logs) Sample.env_no_element
                (enqueue ["serving on 5001"] Sample.started)) as H.
  cbv zeta in H. destruct H as [_ H]. apply H. discriminate.
Defined.

(* ----------------------------------------------------------------- *)
(** ** The output relay *)

Section RelayProperties.

Variable decode : list byte -> Result string.

Lemma relay_line_cases (line : list byte) (s : State) :
  relay_line decode line s =
    match line with
    | [] => (s, Ok None)
    | _ :: _ =>
        match decode line with
        | Ok text =>
            (set_server_logs (server_logs s ++ [Text.rstrip text]) s,
             Ok (Some (Text.rstrip text)))
        | Raise e => (s, Raise e)
        end
    end.
Proof.
  destruct line as [|b line]; [reflexivity|].
  unfold relay_line, bind, lift. destruct (decode (b :: line)); reflexivity.
Qed.

Lemma relay_step_halted (r : Relay) (s : State) :
  halted r = true -> relay_step decode r s = (r, s, None).
Proof.
  unfold halted, relay_step. destruct (phase r); intros H;
    try discriminate; reflexivity.
Qed.

Lemma relay_run_halted (sched : list (State -> State)) (r : Relay) (s : State) :
  halted r = true -> snd (relay_run decode sched r s) = [].
Proof.
  revert s. induction sched as [|others later IH]; intros s H; [reflexivity|].
  cbn [relay_run]. rewrite relay_step_halted by assumption.
  specialize (IH (others s) H).
  destruct (relay_run decode later r (others s)) as [[r' s'] evs].
  exact IH.
Qed.

(** What one iteration does to the queue: it appends the line it puts. *)
Lemma relay_step_queue (r : Relay) (s : State) :
  server_logs (snd (fst (relay_step decode r s))) =
    server_logs s ++
    map snd (puts match snd (relay_step decode r s) with
                  | Some ev => [ev]
                  | None => []
                  end).
Proof.
  unfold relay_step, relay_iter.
  destruct (phase r); cbn; rewrite ?app_nil_r; try reflexivity.
  - destruct (out_pending r) as [|line rest]; cbn;
      rewrite ?app_nil_r; [reflexivity|].
    rewrite relay_line_cases. destruct line as [|b line]; cbn;
      rewrite ?app_nil_r; [reflexivity|].
    destruct (decode (b :: line)); cbn; rewrite ?app_nil_r; reflexivity.
  - destruct (err_pending r) as [|line rest]; cbn;
      rewrite ?app_nil_r; [reflexivity|].
    rewrite relay_line_cases. destruct line as [|b line]; cbn;
      rewrite ?app_nil_r; [reflexivity|].
    destruct (decode (b :: line)); cbn; rewrite ?app_nil_r; reflexivity.
Qed.

Lemma puts_app (l1 l2 : list RelayEvent) : puts (l1 ++ l2) = puts l1 ++ puts l2.
Proof.
  induction l1 as [|[src t|src|src] l1 IH]; cbn; rewrite ?IH; reflexivity.
Qed.

(** With nothing else running, the queue grows by the lines put, in the
    order they were put. *)
Lemma relay_run_alone_queue (n : nat) (r : Relay) (s : State) :
  server_logs (snd (fst (relay_run decode (alone n) r s))) =
    server_logs s ++ map snd (puts (snd (relay_run decode (alone n) r s))).
Proof.
  revert r s. induction n as [|n IH]; intros r s; cbn.
  - rewrite app_nil_r. reflexivity.
  - pose proof (relay_step_queue r s) as Hq.
    destruct (relay_step decode r s) as [[r' s'] ev]. cbn [fst snd] in Hq.
    specialize (IH r' s'). fold (alone n).
    destruct (relay_run decode (alone n) r' s') as [[r'' s''] evs].
    cbn [fst snd] in *. rewrite IH, Hq, <- app_assoc, <- map_app.
    destruct ev as [ev|]; [|reflexivity].
    change (ev :: evs) with ([ev] ++ evs). rewrite puts_app. reflexivity.
Qed.

(** The order of the events of any run. *)
Lemma relay_run_ordered (sched : list (State -> State)) (r : Relay) (s : State) :
  well_ordered (negb (stdout_open r)) (snd (relay_run decode sched r s)) = true.
Proof.
  revert r s. induction sched as [|others later IH]; intros r s; [reflexivity|].
  cbn [relay_run].
  destruct (relay_step decode r (others s)) as [[r' s'] ev] eqn:E.
  specialize (IH r' s'). pose proof (relay_run_halted later r' s') as Hh.
  destruct (relay_run decode later r' s') as [[r'' s''] evs].
  cbn [snd] in *. unfold relay_step, relay_iter in E.
  destruct r as [ph out err]. unfold stdout_open. cbn [phase] in *.
  destruct ph; cbn [negb out_pending err_pending] in *.
  - destruct out as [|line rest].
    + injection E as <- <- <-. exact IH.
    + destruct (relay_line decode line (others s)) as [s1 [[t|]|e]];
        injection E as <- <- <-; cbn in *; try exact IH.
      rewrite (Hh eq_refl). reflexivity.
  - destruct err as [|line rest].
    + injection E as <- <- <-. exact IH.
    + destruct (relay_line decode line (others s)) as [s1 [[t|]|e]];
        injection E as <- <- <-; cbn in *; exact IH.
  - injection E as <- <- <-. exact IH.
  - injection E as <- <- <-. exact IH.
Qed.

End RelayProperties.

Lemma closed_no_stdout (evs : list RelayEvent) :
  well_ordered true evs = true -> forall text, ~ In (Put Stdout text) evs.
Proof.
  induction evs as [|ev evs IH]; intros H text Hin; [exact Hin|].
  destruct Hin as [->|Hin]; [discriminate|].
  destruct ev as [[|] t|[|]|[|]]; cbn in H; try discriminate;
    apply (IH H text Hin).
Qed.

(** Read as a statement on positions: a line of standard error is put only
    after the end of standard output, and no line of standard output is put
    after it. *)
Lemma well_ordered_spec (closed : bool) (evs pre post : list RelayEvent)
      (text : string) :
  well_ordered closed evs = true ->
  evs = pre ++ Put Stderr text :: post ->
  (closed = true \/ In (Eof Stdout) pre) /\
  forall text', ~ In (Put Stdout text') post.
Proof.
  revert closed evs. induction pre as [|ev pre IH]; intros closed evs H ->.
  - cbn in H. apply andb_prop in H as [-> H]. split; [auto|].
    apply closed_no_stdout, H.
  - cbn [app] in H.
    destruct ev as [[|] t|[|]|[|]]; cbn in H;
      try (destruct (IH _ _ H eq_refl) as [[->|Hin] Hpost];
           split; cbn; auto; fail).
    + apply andb_prop in H as [Hc H].
      destruct (IH _ _ H eq_refl) as [[->|Hin] Hpost]; [discriminate|].
      split; cbn; auto.
    + apply andb_prop in H as [-> H].
      destruct (IH _ _ H eq_refl) as [_ Hpost]. split; auto.
    + destruct (IH _ _ H eq_refl) as [_ Hpost]. split; cbn; auto.
Qed.

Lemma closed_puts (evs : list RelayEvent) :
  well_ordered true evs = true ->
  puts evs = map (pair Stderr) (map snd (puts evs)).
Proof.
  induction evs as [|ev evs IH]; intros H; [reflexivity|].
  destruct ev as [[|] t|[|]|[|]]; cbn in *; try discriminate; auto.
  rewrite <- IH by assumption. reflexivity.
Qed.

Lemma well_ordered_puts (evs : list RelayEvent) :
  well_ordered false evs = true ->
  exists outs errs, puts evs = map (pair Stdout) outs ++ map (pair Stderr) errs.
Proof.
  induction evs as [|ev evs IH]; intros H.
  - exists [], []. reflexivity.
  - destruct ev as [[|] t|[|]|[|]]; cbn in H; try discriminate;
      try (apply IH, H).
    + destruct (IH H) as (outs & errs & E). exists (t :: outs), errs.
      cbn. rewrite E. reflexivity.
    + exists [], (map snd (puts evs)). cbn. apply closed_puts, H.
Qed.

Section RelayRuns.

Variable decode : list byte -> Result string.

Lemma relay_run_halted_state (n : nat) (r : Relay) (s : State) :
  halted r = true -> snd (fst (relay_run decode (alone n) r s)) = s.
Proof.
  intros H. induction n as [|n IH]; [reflexivity|].
  cbn. rewrite relay_step_halted by assumption. fold (alone n).
  destruct (relay_run decode (alone n) r s) as [[r' s'] evs]. exact IH.
Qed.

(** Run to its end with nothing else running, the second loop of the
    machine leaves the state the loop [relay_lines] leaves. *)
Lemma relay_run_stderr (err : list (list byte)) :
  forall (n : nat) (s : State) (out : list (list byte)),
    List.length err < n ->
    snd (fst (relay_run decode (alone n)
                {| phase := ReadingStderr; out_pending := out;
                   err_pending := err |} s))
      = fst (relay_lines decode err s).
Proof.
  induction err as [|line rest IH]; intros n s out Hn;
    (destruct n as [|n]; [cbn in Hn; lia|]); cbn [alone repeat relay_run];
    fold (alone n).
  - cbn.
    pose proof (relay_run_halted_state n
                  {| phase := Returned; out_pending := out; err_pending := [] |}
                  s eq_refl) as H.
    destruct (relay_run decode (alone n) _ s) as [[r' s'] evs]. exact H.
  - unfold relay_step, relay_iter. cbn [phase err_pending out_pending].
    cbn [relay_lines]. unfold bind at 1.
    destruct (relay_line decode line s) as [s1 [[t|]|e]].
    + specialize (IH n s1 out ltac:(cbn in Hn; lia)).
      destruct (relay_run decode (alone n) _ s1) as [[r' s'] evs]. exact IH.
    + specialize (IH n s1 out ltac:(cbn in Hn; lia)).
      destruct (relay_run decode (alone n) _ s1) as [[r' s'] evs]. exact IH.
    + pose proof (relay_run_halted_state n
                    {| phase := Died e; out_pending := out;
                       err_pending := line :: rest |} s1 eq_refl) as H.
      destruct (relay_run decode (alone n) _ s1) as [[r' s'] evs]. exact H.
Qed.

(** The machine refines the coroutine: given enough iterations and nothing
    else running, it leaves the state [capture_output] leaves. *)
Lemma relay_run_stdout (out : list (list byte)) :
  forall (n : nat) (s : State) (err : list (list byte)),
    List.length out + List.length err + 1 < n ->
    snd (fst (relay_run decode (alone n)
                {| phase := ReadingStdout; out_pending := out;
                   err_pending := err |} s))
      = fst ((relay_lines decode out;; relay_lines decode err) s).
Proof.
  induction out as [|line rest IH]; intros n s err Hn;
    (destruct n as [|n]; [cbn in Hn; lia|]); cbn [alone repeat relay_run];
    fold (alone n).
  - cbn [relay_step phase out_pending err_pending relay_lines].
    pose proof (relay_run_stderr err n s [] ltac:(cbn in Hn; lia)) as H.
    destruct (relay_run decode (alone n) _ s) as [[r' s'] evs].
    cbn [fst snd] in *. rewrite H. reflexivity.
  - unfold relay_step, relay_iter. cbn [phase err_pending out_pending].
    cbn [relay_lines]. unfold bind at 1 2.
    destruct (relay_line decode line s) as [s1 [[t|]|e]].
    + specialize (IH n s1 err ltac:(cbn in Hn; lia)).
      destruct (relay_run decode (alone n) _ s1) as [[r' s'] evs]. exact IH.
    + specialize (IH n s1 err ltac:(cbn in Hn; lia)).
      destruct (relay_run decode (alone n) _ s1) as [[r' s'] evs]. exact IH.
    + pose proof (relay_run_halted_state n
                    {| phase := Died e; out_pending := line :: rest;
                       err_pending := err |} s1 eq_refl) as H.
      destruct (relay_run decode (alone n) _ s1) as [[r' s'] evs]. exact H.
Qed.

Lemma set_server_logs_twice (l1 l2 : list string) (s : State) :
  set_server_logs l2 (set_server_logs l1 s) = set_server_logs l2 s.
Proof. reflexivity. Qed.

Lemma set_server_logs_same (s : State) : set_server_logs (server_logs s) s = s.
Proof. destruct s; reflexivity. Qed.

(** Lines that all decode all reach the queue, in order. *)
Lemma relay_lines_decodable (lines : list (list byte)) (s : State) :
  decodable decode lines = true ->
  relay_lines decode lines s =
    (set_server_logs (server_logs s ++ texts decode lines) s, Ok tt).
Proof.
  revert s. induction lines as [|line rest IH]; intros s H; cbn.
  - rewrite app_nil_r, set_server_logs_same. reflexivity.
  - cbn in H. apply andb_prop in H as [Hd Hrest]. unfold bind.
    rewrite relay_line_cases. destruct line as [|b line].
    + rewrite IH by assumption. reflexivity.
    + destruct (decode (b :: line)) as [text|e]; [|discriminate].
      rewrite IH by assumption. cbn [server_logs set_server_logs].
      rewrite set_server_logs_twice, <- app_assoc. reflexivity.
Qed.

Lemma capture_output_decodable (process : Process) (s : State) :
  decodable decode (stdout process) = true ->
  decodable decode (stderr process) = true ->
  capture_output decode process s =
    (set_server_logs
       (server_logs s ++ texts decode (stdout process)
                      ++ texts decode (stderr process)) s, Ok tt).
Proof.
  intros Ho He. unfold capture_output, bind.
  rewrite relay_lines_decodable by assumption.
  rewrite relay_lines_decodable by assumption.
  cbn [server_logs set_server_logs].
  rewrite set_server_logs_twice, <- app_assoc. reflexivity.
Qed.

End RelayRuns.

(** C9.  In every run of the relay over one process, however the other
    tasks are scheduled between its iterations, a line of standard error is
    put into the queue only after standard output has reached its end, and
    no line of standard output is put after a line of standard error: the
    lines put are those of standard output followed by those of standard
    error.  With nothing else running the queue grows by exactly those
    lines in that order; after enough iterations the machine has done what
    [capture_output] does, which, when every line decodes, appends all the
    lines of standard output and then all the lines of standard error. *)
Theorem relay_puts_stdout_before_stderr
        (decode : list byte -> Result string) (process : Process) (s : State) :
  (forall sched,
      let evs := snd (relay_run decode sched (relay_of process) s) in
      well_ordered false evs = true /\
      (forall pre text post,
          evs = pre ++ Put Stderr text :: post ->
          In (Eof Stdout) pre /\ forall text', ~ In (Put Stdout text') post) /\
      (exists outs errs,
          puts evs = map (pair Stdout) outs ++ map (pair Stderr) errs)) /\
  (forall n,
      server_logs (snd (fst (relay_run decode (alone n) (relay_of process) s))) =
        server_logs s ++
        map snd (puts (snd (relay_run decode (alone n) (relay_of process) s)))) /\
  (forall n,
      List.length (stdout process) + List.length (stderr process) + 1 < n ->
      snd (fst (relay_run decode (alone n) (relay_of process) s))
        = fst (capture_output decode process s)) /\
  (decodable decode (stdout process) = true ->
   decodable decode (stderr process) = true ->
   server_logs (fst (capture_output decode process s)) =
     server_logs s ++ texts decode (stdout process)
                   ++ texts decode (stderr process)).
Proof.
  split; [|split; [|split]].
  - intros sched evs.
    assert (H : well_ordered false evs = true)
      by apply (relay_run_ordered decode sched (relay_of process) s).
    split; [exact H|]. split.
    + intros pre text post E.
      destruct (well_ordered_spec false evs pre post text H E) as [[A|A] B];
        [discriminate|auto].
    + apply well_ordered_puts, H.
  - intros n. apply relay_run_alone_queue.
  - intros n Hn. apply (relay_run_stdout decode); assumption.
  - intros Ho He. rewrite capture_output_decodable by assumption. reflexivity.
Qed.

Lemma relay_order_witness :
  server_logs (fst (capture_output Sample.decode_ascii Sample.chatty initial))
    = ["listening"; "warning: debug"] /\
  In (Eof Stdout) [Put Stdout "listening"; Eof Stdout] /\
  server_logs
    (snd (fst (relay_run Sample.decode_ascii (alone 4)
                 (relay_of Sample.chatty) initial)))
    = ["listening"; "warning: debug"].
Proof.
  pose proof (relay_puts_stdout_before_stderr Sample.decode_ascii Sample.chatty
                initial) as (Hord & Hqueue & _ & Hall).
  split; [exact (Hall eq_refl eq_refl)|]. split.
  - destruct (Hord (alone 4)) as (_ & Hpos & _).
    apply (Hpos [Put Stdout "listening"; Eof Stdout] "warning: debug"
                [Eof Stderr] eq_refl).
  - rewrite (Hqueue 4). reflexivity.
Defined.

(* ----------------------------------------------------------------- *)
(** ** Sessions over time *)

(** The state a successful first-time or restarting [start_app] leaves. *)
Lemma start_app_fresh (env : Env) (s : State) (d : Driver) (b : Browser) (pg : Page) :
  running s = false ->
  driver_start env = Ok d ->
  chromium_launch env = Ok b ->
  new_page env = Ok pg ->
  start_app env s =
    ({| app_process :=
          Some {| pid := child_pid env; returncode := None;
                  stdout := child_stdout env; stderr := child_stderr env |};
        server_logs := server_logs s;
        console_logs := [];
        browser := Some b; page := Some pg; playwright := Some d;
        effects :=
          effects s ++
          [Spawn (child_pid env); CreateTask (child_pid env); Sleep 2000;
           DriverStart d; Launch b; NewPage (page_id pg);
           Listen "console" (page_id pg); Listen "pageerror" (page_id pg)] |},
     Ok msg_started).
Proof.
  intros R Hd Hb Hp.
  unfold start_app, setup_browser_console_capture, bind, get.
  rewrite R, Hd, Hb, Hp. destruct s as [ap q c b0 pg0 d0 fx]. run.
  rewrite <- !app_assoc. reflexivity.
Qed.

Lemma stop_app_clears_handles (s : State) :
  browser (fst (stop_app s)) = None /\ playwright (fst (stop_app s)) = None.
Proof. by_state s; split; reflexivity. Qed.

(** X4.  A [start_app] that finds nothing running and whose three driver
    calls succeed returns the full success message, records the new child
    as a live handle, holds the driver, browser and page it was given,
    leaves an empty console buffer and an untouched queue, and has made
    exactly the calls spawn, create-task, 2 s pause, driver start, launch,
    new page and two listener registrations.  Right after it,
    [get_app_status] reports the child's pid with capture enabled and
    [get_console_logs] reports that nothing was captured yet, whatever the
    buffer held before. *)
Theorem start_app_fresh_session
        (env : Env) (s : State) (d : Driver) (b : Browser) (pg : Page) :
  running s = false ->
  driver_start env = Ok d ->
  chromium_launch env = Ok b ->
  new_page env = Ok pg ->
  let s' := fst (start_app env s) in
  let child := {| pid := child_pid env; returncode := None;
                  stdout := child_stdout env; stderr := child_stderr env |} in
  snd (start_app env s) = Ok msg_started /\
  app_process s' = Some child /\
  playwright s' = Some d /\ browser s' = Some b /\ page s' = Some pg /\
  console_logs s' = [] /\
  server_logs s' = server_logs s /\
  effects s' =
    effects s ++
    [Spawn (child_pid env); CreateTask (child_pid env); Sleep 2000;
     DriverStart d; Launch b; NewPage (page_id pg);
     Listen "console" (page_id pg); Listen "pageerror" (page_id pg)] /\
  get_app_status s' = (s', Ok (status_line child true)) /\
  get_console_logs s' =
    (s', Ok "No browser console logs captured yet. Use navigate_to() to visit pages and generate logs.").
Proof.
  intros R Hd Hb Hp s' child. subst s'.
  rewrite (start_app_fresh env s d b pg R Hd Hb Hp). cbn [fst snd].
  repeat (split; [reflexivity|]). reflexivity.
Qed.

Lemma start_app_fresh_session_witness :
  get_app_status Sample.started =
    (Sample.started,
     Ok "App is running (PID: 4242). Browser console capture enabled") /\
  console_logs
    (fst (start_app Sample.env_no_element
            (set_console_logs
               [{| level := "log"; message := "old"; timestamp := "t";
                   entry_url := "about:blank"; args := [] |}]
               Sample.crashed))) = [].
Proof.
  pose proof (start_app_fresh_session Sample.env_ok initial (DriverId 1)
                (BrowserId 1) {| page_id := 1; url := "about:blank" |}
                eq_refl eq_refl eq_refl eq_refl) as H.
  cbv zeta in H. destruct H as (_ & _ & _ & _ & _ & _ & _ & _ & Hstatus & _).
  split; [exact Hstatus|].
  apply (start_app_fresh_session Sample.env_no_element
           (set_console_logs
              [{| level := "log"; message := "old"; timestamp := "t";
                  entry_url := "about:blank"; args := [] |}]
              Sample.crashed)
           (DriverId 2) (BrowserId 2) {| page_id := 2; url := "about:blank" |}
           eq_refl eq_refl eq_refl eq_refl).
Defined.

(** X5.  [stop_app] is idempotent: a second [stop_app] right after a first
    makes no outside call, leaves the state the first one left, and repeats
    the first one's answer. *)
Theorem stop_app_idempotent (s : State) :
  stop_app (fst (stop_app s)) = (fst (stop_app s), snd (stop_app s)) /\
  effects (fst (stop_app (fst (stop_app s)))) = effects (fst (stop_app s)).
Proof.
  assert (E : stop_app (fst (stop_app s)) = (fst (stop_app s), snd (stop_app s)))
    by (by_state s; reflexivity).
  split; [exact E|]. rewrite E. reflexivity.
Qed.

(** X6.  [start_app] does not close what it replaces.  When nothing runs
    but a browser and a driver are still held (the child exited on its own
    and [stop_app] was not called), a successful [start_app] overwrites both
    handles, and the [stop_app] that follows closes the new browser and
    stops the new driver only: between them the two calls make no call on
    the old browser or the old driver, which are no longer held either. *)
Theorem restart_abandons_old_session
        (env : Env) (s : State) (b0 b : Browser) (d0 d : Driver) (pg : Page) :
  running s = false ->
  browser s = Some b0 ->
  playwright s = Some d0 ->
  driver_start env = Ok d ->
  chromium_launch env = Ok b ->
  new_page env = Ok pg ->
  let s1 := fst (start_app env s) in
  let s2 := fst (stop_app s1) in
  let calls :=
    [Spawn (child_pid env); CreateTask (child_pid env); Sleep 2000;
     DriverStart d; Launch b; NewPage (page_id pg);
     Listen "console" (page_id pg); Listen "pageerror" (page_id pg);
     Terminate (child_pid env); Wait (child_pid env);
     BrowserClose b; DriverStop d] in
  browser s1 = Some b /\ playwright s1 = Some d /\
  effects s2 = effects s ++ calls /\
  browser s2 = None /\ playwright s2 = None /\
  (b0 <> b -> ~ In (BrowserClose b0) calls) /\
  (d0 <> d -> ~ In (DriverStop d0) calls).
Proof.
  intros R Hb0 Hd0 Hd Hb Hp s1 s2 calls.
  assert (Hs1 := start_app_fresh env s d b pg R Hd Hb Hp).
  apply (f_equal fst) in Hs1. cbn [fst] in Hs1. fold s1 in Hs1.
  assert (Ha : app_process s1 =
               Some {| pid := child_pid env; returncode := None;
                       stdout := child_stdout env; stderr := child_stderr env |})
    by (rewrite Hs1; reflexivity).
  assert (Hbr : browser s1 = Some b) by (rewrite Hs1; reflexivity).
  assert (Hpw : playwright s1 = Some d) by (rewrite Hs1; reflexivity).
  assert (Hfx : effects s1 =
                effects s ++
                [Spawn (child_pid env); CreateTask (child_pid env); Sleep 2000;
                 DriverStart d; Launch b; NewPage (page_id pg);
                 Listen "console" (page_id pg); Listen "pageerror" (page_id pg)])
    by (rewrite Hs1; reflexivity).
  split; [exact Hbr|]. split; [exact Hpw|].
  split; [|split; [|split; [|split]]].
  - subst s2. rewrite stop_app_effects, Hfx.
    unfold kill_calls, teardown_calls. rewrite Ha, Hbr, Hpw. cbn.
    rewrite <- app_assoc. reflexivity.
  - apply stop_app_clears_handles.
  - apply stop_app_clears_handles.
  - intros Hne Hin. cbn in Hin.
    repeat (destruct Hin as [Hin|Hin]; [try discriminate; congruence|]).
    exact Hin.
  - intros Hne Hin. cbn in Hin.
    repeat (destruct Hin as [Hin|Hin]; [try discriminate; congruence|]).
    exact Hin.
Qed.

Lemma restart_abandons_old_session_witness :
  In (Launch (BrowserId 1)) (effects Sample.crashed) /\
  ~ In (BrowserClose (BrowserId 1))
      [Spawn 4243; CreateTask 4243; Sleep 2000;
       DriverStart (DriverId 2); Launch (BrowserId 2); NewPage 2;
       Listen "console" 2; Listen "pageerror" 2;
       Terminate 4243; Wait 4243;
       BrowserClose (BrowserId 2); DriverStop (DriverId 2)] /\
  browser (fst (stop_app (fst (start_app Sample.env_no_element Sample.crashed))))
    = None.
Proof.
  pose proof (restart_abandons_old_session Sample.env_no_element Sample.crashed
                (BrowserId 1) (BrowserId 2) (DriverId 1) (DriverId 2)
                {| page_id := 2; url := "about:blank" |}
                eq_refl eq_refl eq_refl eq_refl eq_refl eq_refl) as H.
  cbv zeta in H. destruct H as (_ & _ & _ & Hb & _ & Hold & _).
  split; [cbn; auto 10|]. split; [apply Hold; discriminate | exact Hb].
Defined.

(** X7.  A failed restart leaves the old session in place.  When nothing
    runs, a browser and a page are still held, and the session setup of a
    new [start_app] raises, then the new child is live, the page and the
    console buffer are the old ones, a browser is still held, and
    [get_app_status] reports the new pid with "Browser console capture
    enabled". *)
Theorem failed_restart_keeps_old_session
        (env : Env) (s : State) (e : string) (b0 : Browser) (pg0 : Page) :
  running s = false ->
  browser s = Some b0 ->
  page s = Some pg0 ->
  setup_error env = Some e ->
  let s' := fst (start_app env s) in
  let child := {| pid := child_pid env; returncode := None;
                  stdout := child_stdout env; stderr := child_stderr env |} in
  snd (start_app env s) = Raise e /\
  app_process s' = Some child /\
  page s' = Some pg0 /\
  browser s' <> None /\
  (chromium_launch env = Raise e \/ driver_start env = Raise e ->
   browser s' = Some b0) /\
  console_logs s' = console_logs s /\
  get_app_status s' = (s', Ok (status_line child true)).
Proof.
  intros R Hb Hp He s' child. subst s'.
  unfold start_app, setup_browser_console_capture, bind, get.
  unfold setup_error in He. rewrite R.
  destruct s as [ap q c b1 pg1 d1 fx]. cbn in Hb, Hp. subst b1 pg1. run.
  destruct (driver_start env) as [d|e1]; cbn.
  - destruct (chromium_launch env) as [b|e2]; cbn.
    + destruct (new_page env) as [pg|e3]; [discriminate|].
      injection He as ->. cbn.
      do 3 (split; [reflexivity|]). split; [discriminate|].
      split; [intros [H|H]; discriminate|]. split; reflexivity.
    + injection He as ->.
      do 3 (split; [reflexivity|]). split; [discriminate|].
      split; [reflexivity|]. split; reflexivity.
  - injection He as ->.
    do 3 (split; [reflexivity|]). split; [discriminate|].
    split; [reflexivity|]. split; reflexivity.
Qed.

Lemma failed_restart_witness :
  get_app_status (fst (start_app Sample.env_no_driver Sample.crashed)) =
    (fst (start_app Sample.env_no_driver Sample.crashed),
     Ok "App is running (PID: 4242). Browser console capture enabled") /\
  snd (start_app Sample.env_no_driver Sample.crashed)
    = Raise "Executable doesn't exist".
Proof.
  pose proof (failed_restart_keeps_old_session Sample.env_no_driver
                Sample.crashed "Executable doesn't exist" (BrowserId 1)
                {| page_id := 1; url := "about:blank" |}
                eq_refl eq_refl eq_refl eq_refl) as H.
  cbv zeta in H. destruct H as (Hr & _ & _ & _ & _ & _ & Hs).
  split; [exact Hs | exact Hr].
Defined.

(** X8.  [get_app_status] changes nothing and answers by the handle: "App
    is not running" when there is no handle or its exit code is set,
    otherwise the pid of the handle followed by "Browser console capture
    enabled" when both a browser and a page are held and by "Browser not
    initialized" when either is missing.  A child that exits on its own
    turns the answer to "App is not running" without any tool call. *)
Theorem get_app_status_cases (s : State) :
  fst (get_app_status s) = s /\
  (running s = false -> snd (get_app_status s) = Ok "App is not running") /\
  (forall p, app_process s = Some p -> returncode p = None ->
     snd (get_app_status s) =
       Ok (status_line p
             match browser s, page s with
             | Some _, Some _ => true
             | _, _ => false
             end)) /\
  (forall code, snd (get_app_status (child_exits code s)) = Ok "App is not running").
Proof.
  split; [|split; [|split]].
  - unfold get_app_status, bind, get.
    destruct (app_process s) as [[i [rc|] o e]|]; reflexivity.
  - unfold running, get_app_status, bind, get.
    destruct (app_process s) as [[i [rc|] o e]|]; try reflexivity; discriminate.
  - intros p Hp Hr. unfold get_app_status, bind, get. rewrite Hp, Hr.
    destruct (browser s), (page s); reflexivity.
  - intros code. unfold child_exits, get_app_status, bind, get.
    destruct s as [[[i [rc|] o e]|] q c b pg d fx]; reflexivity.
Qed.

Lemma get_app_status_witness :
  snd (get_app_status Sample.started)
    = Ok "App is running (PID: 4242). Browser console capture enabled" /\
  snd (get_app_status initial) = Ok "App is not running".
Proof.
  pose proof (get_app_status_cases Sample.started) as (_ & _ & Hlive & _).
  pose proof (get_app_status_cases initial) as (_ & Hnone & _).
  split.
  - apply (Hlive {| pid := 4242; returncode := None; stdout := []; stderr := [] |});
      reflexivity.
  - apply Hnone. reflexivity.
Defined.

(* ----------------------------------------------------------------- *)
(** ** What reaches the queue *)

Section RelayFailures.

Variable decode : list byte -> Result string.

(** The loop stops at the first line that does not decode: the lines
    before it are queued, the exception leaves the loop, the lines after
    it are never read. *)
Lemma relay_lines_stop (pre post : list (list byte)) (bad : list byte)
      (e : string) (s : State) :
  decodable decode pre = true ->
  bad <> [] ->
  decode bad = Raise e ->
  relay_lines decode (pre ++ bad :: post) s =
    (set_server_logs (server_logs s ++ texts decode pre) s, Raise e).
Proof.
  intros Hpre Hbad He. revert s.
  induction pre as [|line rest IH]; intros s; cbn [app relay_lines].
  - unfold bind. rewrite relay_line_cases.
    destruct bad as [|b bad]; [contradiction|]. rewrite He.
    cbn. rewrite app_nil_r, set_server_logs_same. reflexivity.
  - cbn in Hpre. apply andb_prop in Hpre as [Hd Hrest]. unfold bind.
    rewrite relay_line_cases. destruct line as [|b line].
    + rewrite (IH Hrest). reflexivity.
    + destruct (decode (b :: line)) as [text|e'] eqn:Ed; [|discriminate].
      rewrite (IH Hrest). unfold texts. cbn [server_logs set_server_logs flat_map].
      rewrite Ed, set_server_logs_twice, <- app_assoc. reflexivity.
Qed.



End RelayFailures.

(** X9.  One line that is not valid UTF-8 ends the relay for good.  If a
    line of standard output does not decode, [capture_output] ends with the
    decoder's exception having queued only the lines of standard output
    before that line: the rest of standard output and all of standard error
    are never queued.  If all of standard output decodes and a line of
    standard error does not, everything before that line is queued and
    nothing after it. *)
Theorem capture_output_stops_at_bad_line
        (decode : list byte -> Result string) (process : Process)
        (pre post : list (list byte)) (bad : list byte) (e : string)
        (s : State) :
  decodable decode pre = true ->
  bad <> [] ->
  decode bad = Raise e ->
  (stdout process = pre ++ bad :: post ->
   capture_output decode process s =
     (set_server_logs (server_logs s ++ texts decode pre) s, Raise e)) /\
  (decodable decode (stdout process) = true ->
   stderr process = pre ++ bad :: post ->
   capture_output decode process s =
     (set_server_logs
        (server_logs s ++ texts decode (stdout process) ++ texts decode pre) s,
      Raise e)).
Proof.
  intros Hpre Hbad He. split.
  - intros Ho. unfold capture_output, bind. rewrite Ho.
    rewrite (relay_lines_stop decode pre post bad e s Hpre Hbad He).
    reflexivity.
  - intros Hout Herr. unfold capture_output, bind. rewrite Herr.
    rewrite relay_lines_decodable by assumption.
    rewrite (relay_lines_stop decode pre post bad e _ Hpre Hbad He).
    cbn [server_logs set_server_logs].
    rewrite set_server_logs_twice, <- app_assoc. reflexivity.
Qed.

Lemma capture_output_stops_witness :
  capture_output Sample.decode_ascii Sample.garbled initial =
    (set_server_logs ["ready"] initial, Raise "'utf-8' codec can't decode byte").
Proof.
  apply (capture_output_stops_at_bad_line Sample.decode_ascii Sample.garbled
           [list_byte_of_string ("ready" ++ Text.nl)]
           [list_byte_of_string ("lost" ++ Text.nl)]
           [xff; x0a] "'utf-8' codec can't decode byte" initial
           eq_refl ltac:(discriminate) eq_refl).
  reflexivity.
Defined.




(* ----------------------------------------------------------------- *)
(** ** The console buffer past its capacity *)

(** X11.  The console listener pops one entry per message, so it holds the
    size of a full buffer but never brings it back down: from 100 entries
    or more, after any sequence of events the buffer holds as many entries
    as before plus one per page error.  Once page errors have pushed the
    buffer above 100 it stays above 100. *)
Theorem console_buffer_never_shrinks
        (evs : list BrowserEvent) (s : State) (pg : Page) :
  page s = Some pg ->
  100 <= List.length (console_logs s) ->
  List.length (console_logs (fst (dispatch_all evs s))) =
    List.length (console_logs s) + List.length (filter is_page_error evs).
Proof.
  revert s. induction evs as [|ev rest IH]; intros s Hp Hlen.
  - cbn. lia.
  - cbn [dispatch_all filter]. unfold bind.
    destruct ev as [now msg|now error]; cbn [dispatch is_page_error].
    + rewrite (handle_console_message_eq now msg s pg Hp). cbv zeta.
      set (l := console_logs s ++ [entry_of (url pg) (Console now msg)]).
      assert (Hl : List.length l = List.length (console_logs s) + 1)
        by (unfold l; rewrite length_app; reflexivity).
      destruct (100 <? List.length l) eqn:E;
        [|apply Nat.ltb_ge in E; lia].
      rewrite IH; [|exact Hp|]; cbn [console_logs set_console_logs];
        destruct l; cbn [tl List.length] in *; lia.
    + rewrite (handle_page_error_eq now error s pg Hp).
      rewrite IH; [|exact Hp|]; cbn [console_logs set_console_logs];
        rewrite length_app; cbn [List.length]; lia.
Qed.

Lemma console_buffer_never_shrinks_witness :
  List.length
    (console_logs
       (fst (dispatch_all (Sample.console_messages 50)
               (fst (dispatch_all (page_errors 101) Sample.started))))) = 101.
Proof.
  rewrite (console_buffer_never_shrinks (Sample.console_messages 50)
             (fst (dispatch_all (page_errors 101) Sample.started))
             {| page_id := 1; url := "about:blank" |}).
  - rewrite (page_errors_pile_up (page_errors 101) Sample.started
               {| page_id := 1; url := "about:blank" |} eq_refl
               (page_errors_all 101)).
    reflexivity.
  - rewrite (page_errors_pile_up (page_errors 101) Sample.started
               {| page_id := 1; url := "about:blank" |} eq_refl
               (page_errors_all 101)).
    reflexivity.
  - rewrite (page_errors_pile_up (page_errors 101) Sample.started
               {| page_id := 1; url := "about:blank" |} eq_refl
               (page_errors_all 101)).
    cbn [fst console_logs set_console_logs]. rewrite length_app, length_map,
      page_errors_length. cbn. lia.
Defined.

(* ----------------------------------------------------------------- *)
(** ** Driving the page *)

(** X12.  [navigate_to] and [click_element] reach for the page only when
    the app runs and a page is held.  Otherwise they return an explanation
    and change nothing, whatever the driver would have answered: "App is not
    running. Start the app first." when there is no live child, also when no
    page is held, and "Browser is not initialized. Restart the app." when
    the child is live but no page is held. *)
Theorem page_tools_guarded (env : Env) (arg : string) (s : State) :
  (running s = false ->
   navigate_to env arg s = (s, Ok "App is not running. Start the app first.") /\
   click_element env arg s = (s, Ok "App is not running. Start the app first.")) /\
  (running s = true -> page s = None ->
   navigate_to env arg s = (s, Ok "Browser is not initialized. Restart the app.") /\
   click_element env arg s = (s, Ok "Browser is not initialized. Restart the app.")).
Proof.
  split.
  - intros R. unfold navigate_to, click_element, bind, get. rewrite R.
    split; reflexivity.
  - intros R Hp. unfold navigate_to, click_element, bind, get. rewrite R, Hp.
    split; reflexivity.
Qed.

Lemma page_tools_guarded_witness :
  click_element Sample.env_ok "#go" initial =
    (initial, Ok "App is not running. Start the app first.") /\
  navigate_to Sample.env_ok "/" Sample.crashed =
    (Sample.crashed, Ok "App is not running. Start the app first.") /\
  click_element Sample.env_ok "#go"
    (fst (start_app Sample.env_no_driver initial)) =
    (fst (start_app Sample.env_no_driver initial),
     Ok "Browser is not initialized. Restart the app.").
Proof.
  pose proof (page_tools_guarded Sample.env_ok "#go" initial) as (H1 & _).
  pose proof (page_tools_guarded Sample.env_ok "/" Sample.crashed) as (H2 & _).
  pose proof (page_tools_guarded Sample.env_ok "#go"
                (fst (start_app Sample.env_no_driver initial))) as (_ & H3).
  split; [exact (proj2 (H1 eq_refl))|].
  split; [exact (proj1 (H2 eq_refl)) | exact (proj2 (H3 eq_refl eq_refl))].
Defined.

(** X13.  With the app running and a page held, a click that succeeds
    returns "Clicked element: <selector>" and a navigation that succeeds
    returns "Navigated to http://localhost:5001<path>".  The click makes
    one click on the held page followed by a pause of half a second and
    changes no global; the navigation makes one load of the full address
    followed by a pause of one second and changes no global but the page's
    own address. *)
Theorem page_tools_succeed
        (env : Env) (arg landed : string) (s : State) (pg : Page) :
  running s = true ->
  page s = Some pg ->
  (page_click env arg = Ok tt ->
   click_element env arg s =
     ({| app_process := app_process s; server_logs := server_logs s;
         console_logs := console_logs s; browser := browser s;
         page := page s; playwright := playwright s;
         effects := effects s ++ [Click (page_id pg) arg; Sleep 500] |},
      Ok ("Clicked element: " ++ arg)%string)) /\
  (page_goto env ("http://localhost:5001" ++ arg)%string = Ok landed ->
   navigate_to env arg s =
     ({| app_process := app_process s; server_logs := server_logs s;
         console_logs := console_logs s; browser := browser s;
         page := Some {| page_id := page_id pg; url := landed |};
         playwright := playwright s;
         effects :=
           effects s ++
           [Goto (page_id pg) ("http://localhost:5001" ++ arg)%string;
            Sleep 1000] |},
      Ok ("Navigated to http://localhost:5001" ++ arg)%string)).
Proof.
  intros R Hp. destruct s as [ap q c b pg' d fx]. cbn in Hp. subst pg'.
  split.
  - intros Hc. unfold click_element, bind, get, try_except. rewrite R.
    run. rewrite Hc. cbn. rewrite <- app_assoc. reflexivity.
  - intros Hg. unfold navigate_to, bind, get, try_except. rewrite R.
    run. cbn in Hg. rewrite Hg. cbn. rewrite <- app_assoc. reflexivity.
Qed.

Lemma page_tools_succeed_witness :
  snd (click_element Sample.env_ok "#go" Sample.started)
    = Ok "Clicked element: #go" /\
  snd (navigate_to Sample.env_ok "/" Sample.started)
    = Ok "Navigated to http://localhost:5001/".
Proof.
  pose proof (page_tools_succeed Sample.env_ok "#go" "" Sample.started
                {| page_id := 1; url := "about:blank" |} eq_refl eq_refl)
    as (Hc & _).
  pose proof (page_tools_succeed Sample.env_ok "/" "http://localhost:5001/"
                Sample.started {| page_id := 1; url := "about:blank" |}
                eq_refl eq_refl) as (_ & Hn).
  rewrite (Hc eq_refl), (Hn eq_refl). split; reflexivity.
Defined.

(* ----------------------------------------------------------------- *)
(** ** Every reachable state *)

Lemma consistent_initial : Consistent initial.
Proof.
  unfold Consistent. cbn.
  repeat split; intros; try discriminate; try contradiction.
Qed.

(** A change that spawns nothing, keeps the handles and their identities,
    appends to the record of calls and fills the buffer only under a page
    keeps a state consistent. *)
Lemma consistent_frame (s s' : State) (added : list Effect) :
  Consistent s ->
  effects s' = effects s ++ added ->
  spawns added = [] ->
  relay_tasks added = [] ->
  option_map pid (app_process s') = option_map pid (app_process s) ->
  browser s' = browser s ->
  playwright s' = playwright s ->
  option_map page_id (page s') = option_map page_id (page s) ->
  (console_logs s' <> [] -> console_logs s <> [] \/ page s <> None) ->
  Consistent s'.
Proof.
  intros (Hrel & Hproc & Hbr & Hpw & Hpg & Hbp & Hcl) Hfx Hs Hr Hap Hb Hd Hp Hc.
  unfold Consistent. rewrite Hfx, Hb, Hd.
  rewrite relay_tasks_app, spawns_app, Hs, Hr, !app_nil_r.
  split; [exact Hrel|]. split; [|split; [|split; [|split; [|split]]]].
  - intros p Hp'. rewrite Hp' in Hap.
    destruct (app_process s) as [p0|]; [|discriminate].
    injection Hap as Hpid. destruct (Hproc p0 eq_refl) as (before & E).
    exists before. rewrite E, Hpid. reflexivity.
  - intros b H. apply in_app_iff. left. auto.
  - intros d H. apply in_app_iff. left. auto.
  - intros pg Hp'. rewrite Hp' in Hp.
    destruct (page s) as [pg0|]; [|discriminate].
    injection Hp as Hid. apply in_app_iff. left. rewrite Hid. auto.
  - exact Hbp.
  - intros H. destruct (Hc H) as [H1|H1].
    + specialize (Hcl H1). destruct (page s); [|contradiction].
      destruct (page s'); [discriminate|discriminate].
    + destruct (page s); [|contradiction].
      destruct (page s'); [discriminate|discriminate].
Qed.

Lemma consistent_start (env : Env) (s : State) :
  Consistent s -> Consistent (fst (start_app env s)).
Proof.
  intros (Hrel & Hproc & Hbr & Hpw & Hpg & Hbp & Hcl).
  unfold start_app, setup_browser_console_capture, bind, get.
  destruct (running s) eqn:R; [repeat split; assumption|].
  destruct s as [ap q c b0 pg0 d0 fx].
  cbn -[relay_tasks spawns In] in Hrel, Hproc, Hbr, Hpw, Hpg, Hbp, Hcl.
  unfold ret, raise, lift, modify, emit.
  destruct (driver_start env) as [d|e1];
    [destruct (chromium_launch env) as [b|e2];
     [destruct (new_page env) as [pg|e3]|]|];
    unfold Consistent; cbn -[relay_tasks spawns In];
    rewrite ?relay_tasks_app, ?spawns_app, Hrel; cbn -[In];
    rewrite ?app_nil_r;
    (split; [reflexivity|]);
    (split; [intros p Hp; injection Hp as <-; eexists; reflexivity|]);
    repeat split; intros; rewrite ?in_app_iff; cbn;
    try discriminate;
    try (match goal with H : Some _ = Some _ |- _ => injection H as <- end);
    auto 20.
Qed.

Lemma consistent_stop (s : State) :
  Consistent s -> Consistent (fst (stop_app s)).
Proof.
  intros (Hrel & Hproc & Hbr & Hpw & Hpg & Hbp & Hcl).
  assert (Hfx := stop_app_effects s).
  assert (Hk : spawns (kill_calls s ++ teardown_calls s) = [] /\
               relay_tasks (kill_calls s ++ teardown_calls s) = [])
    by (unfold kill_calls, teardown_calls;
        destruct (app_process s) as [[i [rc|] o e]|];
        destruct (browser s); destruct (playwright s); split; reflexivity).
  destruct Hk as [Hs Hr].
  destruct (stop_app_clears_handles s) as [Hb Hd].
  unfold Consistent. rewrite Hfx, Hb, Hd, relay_tasks_app, spawns_app, Hs, Hr,
    !app_nil_r.
  split; [exact Hrel|]. split; [|split; [|split; [|split; [|split]]]];
    try (intros; discriminate).
  - intros p Hp. apply Hproc.
    clear - Hp. by_state s; cbn in Hp; try discriminate; exact Hp.
  - intros pg1 Hp. apply in_app_iff. left. apply Hpg.
    clear - Hp. by_state s; exact Hp.
  - intros H; contradiction.
  - intros Hc. replace (page (fst (stop_app s))) with (page s)
      by (clear; by_state s; reflexivity).
    apply Hcl. destruct (stop_app_logs s) as [_ E]. rewrite <- E. exact Hc.
Qed.

Lemma consistent_step (a : Action) (s : State) :
  Consistent s -> Consistent (step a s).
Proof.
  intros H. destruct a as [env| | | | |env path|env selector|ev|code|text];
    cbn [step].
  - apply consistent_start, H.
  - apply consistent_stop, H.
  - replace (fst (get_app_status s)) with s; [exact H|].
    unfold get_app_status, bind, get.
    destruct (app_process s) as [[i [rc|] o e]|]; reflexivity.
  - replace (fst (get_console_logs s)) with s; [exact H|].
    unfold get_console_logs, bind, get.
    destruct (running s); cbn; [|reflexivity].
    destruct (console_logs s); reflexivity.
  - rewrite get_server_logs_eq. cbn [fst].
    apply (consistent_frame s _ []); try reflexivity; try exact H.
    + cbn. rewrite app_nil_r. reflexivity.
    + cbn. auto.
  - unfold navigate_to, bind, get, try_except.
    destruct (running s); cbn [negb]; [|exact H].
    destruct (page s) as [pg|] eqn:Hp; [|exact H].
    unfold lift, modify, emit, ret.
    destruct (page_goto env _) as [landed|e]; cbn [fst]; [|exact H].
    apply (consistent_frame s _ [Goto (page_id pg) ("http://localhost:5001" ++ path)%string; Sleep 1000]);
      try reflexivity; try exact H.
    + cbn. rewrite <- app_assoc. reflexivity.
    + cbn. rewrite Hp. reflexivity.
    + cbn. auto.
  - unfold click_element, bind, get, try_except.
    destruct (running s); cbn [negb]; [|exact H].
    destruct (page s) as [pg|] eqn:Hp; [|exact H].
    unfold lift, modify, emit, ret.
    destruct (page_click env selector) as [[]|e]; cbn [fst]; [|exact H].
    apply (consistent_frame s _ [Click (page_id pg) selector; Sleep 500]);
      try reflexivity; try exact H.
    + cbn. rewrite <- app_assoc. reflexivity.
    + cbn. auto.
  - destruct (page s) as [pg|] eqn:Hp.
    + assert (E : exists l, fst (dispatch ev s) = set_console_logs l s).
      { destruct ev as [now msg|now error]; cbn [dispatch].
        - rewrite (handle_console_message_eq now msg s pg Hp).
          eexists; reflexivity.
        - rewrite (handle_page_error_eq now error s pg Hp).
          eexists; reflexivity. }
      destruct E as (l & ->).
      apply (consistent_frame s _ []); try reflexivity; try exact H.
      * cbn. rewrite app_nil_r. reflexivity.
      * intros _. right. rewrite Hp. discriminate.
    + rewrite dispatch_without_page by assumption. exact H.
  - unfold child_exits.
    destruct (app_process s) as [[i [rc|] o e]|] eqn:Ha; try exact H.
    apply (consistent_frame s _ []); try reflexivity; try exact H.
    + cbn. rewrite app_nil_r. reflexivity.
    + cbn. rewrite Ha. reflexivity.
    + cbn. auto.
  - apply (consistent_frame s _ []); try reflexivity; try exact H.
    + cbn. rewrite app_nil_r. reflexivity.
    + cbn. auto.
Qed.

(** X14.  Whatever sequence of tool calls, page events, child exits and
    relay puts has happened since the module was loaded: every child
    spawned has exactly one relay task, the process handle (live or
    exited) is the child spawned last, a held browser, driver or page is
    one the driver handed out, a browser is held only together with a
    driver, and the console buffer holds entries only if a page is held. *)
Theorem reachable_states_consistent (acts : list Action) :
  let s := execute acts initial in
  relay_tasks (effects s) = spawns (effects s) /\
  (forall p, app_process s = Some p ->
             exists before, spawns (effects s) = before ++ [pid p]) /\
  (forall b, browser s = Some b -> In (Launch b) (effects s)) /\
  (forall d, playwright s = Some d -> In (DriverStart d) (effects s)) /\
  (forall pg, page s = Some pg -> In (NewPage (page_id pg)) (effects s)) /\
  (browser s <> None -> playwright s <> None) /\
  (console_logs s <> [] -> page s <> None).
Proof.
  cbv zeta. change (Consistent (execute acts initial)).
  unfold execute. generalize consistent_initial. generalize initial.
  induction acts as [|a rest IH]; intros s H; cbn [fold_left].
  - exact H.
  - apply IH, consistent_step, H.
Qed.

Lemma reachable_states_witness :
  relay_tasks
    (effects
       (execute [DoStart Sample.env_ok; PageSends (PageError "t" "boom");
                 ChildExits 1; DoStart Sample.env_no_element; DoStop]
                initial))
    = [4242%Z; 4243%Z] /\
  In (Launch (BrowserId 2))
     (effects (execute [DoStart Sample.env_ok; ChildExits 1;
                        DoStart Sample.env_no_element] initial)).
Proof.
  pose proof (reachable_states_consistent
                [DoStart Sample.env_ok; PageSends (PageError "t" "boom");
                 ChildExits 1; DoStart Sample.env_no_element; DoStop]) as H1.
  pose proof (reachable_states_consistent
                [DoStart Sample.env_ok; ChildExits 1;
                 DoStart Sample.env_no_element]) as H2.
  cbv zeta in H1, H2.
  destruct H1 as (Hrel & _). destruct H2 as (_ & _ & Hbr & _).
  split.
  - rewrite Hrel. vm_compute. reflexivity.
  - apply Hbr. vm_compute. reflexivity.
Defined.

(* ----------------------------------------------------------------- *)
(** ** The page handle outlives its session *)

Lemma stop_app_keeps_page (s : State) :
  page (fst (stop_app s)) = page s /\ running (fst (stop_app s)) = false.
Proof. by_state s; split; reflexivity. Qed.

Lemma start_app_failed_keeps_page (env : Env) (s : State) (e : string) :
  running s = false ->
  setup_error env = Some e ->
  page (fst (start_app env s)) = page s.
Proof.
  intros R He. unfold setup_error in He.
  unfold start_app, setup_browser_console_capture, bind, get. rewrite R. run.
  destruct (driver_start env); cbn; [|reflexivity].
  destruct (chromium_launch env); cbn; [|reflexivity].
  destruct (new_page env); [discriminate|reflexivity].
Qed.

Lemma click_element_clicks (env : Env) (selector : string) (s : State) (pg : Page) :
  running s = true ->
  page s = Some pg ->
  page_click env selector = Ok tt ->
  snd (click_element env selector s) = Ok ("Clicked element: " ++ selector)%string /\
  effects (fst (click_element env selector s)) =
    effects s ++ [Click (page_id pg) selector; Sleep 500].
Proof.
  intros R Hp Hc. unfold click_element, bind, get, try_except. rewrite R, Hp.
  run. rewrite Hc. cbn. rewrite <- app_assoc. split; reflexivity.
Qed.

(** X15.  [stop_app] clears the browser and the driver but not the page,
    and a [start_app] whose session setup raises does not replace it.  So
    after a stop and a failed start the child is live and the page of the
    session that was torn down is still held: [click_element] passes both
    of its guards and sends the click to that page. *)
Theorem click_reaches_page_of_stopped_session
        (env env' : Env) (selector e : string) (s : State) (pg0 : Page) :
  page s = Some pg0 ->
  setup_error env = Some e ->
  page_click env' selector = Ok tt ->
  let s1 := fst (stop_app s) in
  let s2 := fst (start_app env s1) in
  page s1 = Some pg0 /\ browser s1 = None /\
  snd (start_app env s1) = Raise e /\
  page s2 = Some pg0 /\ running s2 = true /\
  snd (click_element env' selector s2) = Ok ("Clicked element: " ++ selector)%string /\
  effects (fst (click_element env' selector s2)) =
    effects s2 ++ [Click (page_id pg0) selector; Sleep 500].
Proof.
  intros Hp He Hc s1 s2.
  destruct (stop_app_keeps_page s) as [Hp1 R1]. fold s1 in Hp1, R1.
  rewrite Hp in Hp1.
  assert (Hp2 : page s2 = Some pg0)
    by (unfold s2; rewrite (start_app_failed_keeps_page env s1 e R1 He); exact Hp1).
  assert (R2 : running s2 = true) by apply start_app_makes_running.
  split; [exact Hp1|]. split; [apply stop_app_clears_handles|].
  split; [rewrite start_app_answers, R1, He; reflexivity|].
  split; [exact Hp2|]. split; [exact R2|].
  apply (click_element_clicks env' selector s2 pg0 R2 Hp2 Hc).
Qed.

Lemma click_reaches_stale_page_witness :
  snd (click_element Sample.env_ok "#go"
         (fst (start_app Sample.env_no_driver (fst (stop_app Sample.started)))))
    = Ok "Clicked element: #go".
Proof.
  pose proof (click_reaches_page_of_stopped_session Sample.env_no_driver
                Sample.env_ok "#go" "Executable doesn't exist" Sample.started
                {| page_id := 1; url := "about:blank" |}
                eq_refl eq_refl eq_refl) as H.
  cbv zeta in H. destruct H as (_ & _ & _ & _ & _ & Hclick & _).
  exact Hclick.
Defined.
